(** * Kabutr: LSB steganography with password-based encryption

    A shallow embedding of [helper_functions.py] (key derivation, Fernet
    envelope, payload framing, LSB embedding and extraction) together with
    the properties of the natural-language specification that concern it.

    Layout of the development:
    - [Bytes]    : 8-bit samples and Python [bytes] values;
    - [PyInt]    : [int.to_bytes] / [int.from_bytes];
    - [Bits]     : [np.unpackbits] / [np.packbits];
    - [Utf8]     : [str.encode('utf-8')] / [bytes.decode('utf-8')];
    - [Sha256], [Hmac], [Pbkdf2], [Base64] : what [derive_key] computes;
    - [Py]       : exceptions, the interpreter state (array buffers, entropy,
                   clock) and the state-and-exception monad;
    - [Numpy]    : [ndarray] values as views on shared buffers;
    - [Fernet]   : the interface of [cryptography.fernet.Fernet];
    - [Helper]   : the functions of [helper_functions.py];
    - the theorems. *)

From Stdlib Require Import ZArith List String Ascii Lia.
From Stdlib.Strings Require Import Byte.
From stdpp Require Import base gmap list pretty.

Local Open Scope Z_scope.

(** Python [bytes] objects and the elements of [uint8] arrays. *)
Abbreviation bytes := (list byte).

#[global] Instance byte_eq_decision : EqDecision byte := Byte.byte_eq_dec.

(* ================================================================== *)
(** ** 8-bit values *)

Module Bytes.

(** The unsigned value of a byte, [0 <= u8 b < 256]. *)
Definition u8 (b : byte) : Z := Z.of_N (Byte.to_N b).

(** Conversion to [uint8], wrapping modulo 256. *)
Definition to_u8 (z : Z) : byte :=
  match Byte.of_N (Z.to_N (z mod 256)) with
  | Some b => b
  | None => x00
  end.

(** [a & b], [a | b] and [a ^ b] on [uint8]. *)
Definition band (a b : byte) : byte := to_u8 (Z.land (u8 a) (u8 b)).
Definition bor (a b : byte) : byte := to_u8 (Z.lor (u8 a) (u8 b)).
Definition bxor (a b : byte) : byte := to_u8 (Z.lxor (u8 a) (u8 b)).

(** A byte string literal. *)
Definition of_string (s : string) : bytes := list_byte_of_string s.

End Bytes.
Export Bytes.

(* ================================================================== *)
(** ** Python integers to and from byte strings *)

Module PyInt.

(** [int.from_bytes(bs, 'big')]: total, [0] on the empty string. *)
Definition from_bytes_big (bs : bytes) : Z :=
  fold_left (fun acc b => acc * 256 + u8 b) bs 0.

(** The digits of [n.to_bytes(len, 'big')], most significant first. *)
Fixpoint be_digits (len : nat) (n : Z) : bytes :=
  match len with
  | O => []
  | S k => to_u8 (n / 256 ^ Z.of_nat k) :: be_digits k n
  end.

(** [n.to_bytes(len, 'big')]: [None] stands for [OverflowError], raised for
    a negative [n] and for an [n] that does not fit [len] bytes. *)
Definition to_bytes_big (n : Z) (len : nat) : option bytes :=
  if (0 <=? n) && (n <? 256 ^ Z.of_nat len) then Some (be_digits len n)
  else None.

End PyInt.
Export PyInt.

(* ================================================================== *)
(** ** Bit packing *)

Module Bits.

(** The bit of weight [2^i] of a byte, as the [uint8] value 0 or 1. *)
Definition bit_of (b : byte) (i : Z) : byte :=
  if Z.testbit (u8 b) i then x01 else x00.

(** The eight bits of one byte, most significant first. *)
Definition unpack_byte (b : byte) : bytes :=
  map (bit_of b) [7; 6; 5; 4; 3; 2; 1; 0].

(** [np.unpackbits(a)] on a one-dimensional [uint8] array. *)
Definition unpackbits (a : bytes) : bytes := flat_map unpack_byte a.

(** A nonzero element counts as a set bit. *)
Definition bit_value (b : byte) : Z := if decide (b = x00) then 0 else 1.

(** One output byte of [np.packbits]: up to eight bits, most significant
    first, a short group being padded with zero bits on the right. *)
Definition pack_byte (bits : bytes) : byte :=
  to_u8 (fold_left (fun acc b => 2 * acc + bit_value b)
                   (take 8 (bits ++ repeat x00 8)) 0).

(** [np.packbits(a)] on a one-dimensional array. *)
Fixpoint packbits (a : bytes) : bytes :=
  match a with
  | [] => []
  | b0 :: b1 :: b2 :: b3 :: b4 :: b5 :: b6 :: b7 :: rest =>
      pack_byte [b0; b1; b2; b3; b4; b5; b6; b7] :: packbits rest
  | partial => [pack_byte partial]
  end.

End Bits.
Export Bits.

(* ================================================================== *)
(** ** UTF-8, the codec of [str.encode] and [bytes.decode] *)

Module Utf8.

(** A Python [str]: its code points.  Python keeps them within
    [0 .. 0x10FFFF]; lone surrogates ([0xD800 .. 0xDFFF]) may occur. *)
Definition str := list Z.

(** A [str] literal. *)
Definition str_of_string (s : string) : str := map u8 (list_byte_of_string s).

(** The encoding of one code point; [None] where the strict codec raises
    [UnicodeEncodeError] (surrogates; values that are no code point). *)
Definition encode_cp (c : Z) : option bytes :=
  if c <? 0 then None
  else if c <? 0x80 then Some [to_u8 c]
  else if c <? 0x800 then
    Some [to_u8 (0xC0 + c / 64); to_u8 (0x80 + c mod 64)]
  else if c <? 0x10000 then
    if (0xD800 <=? c) && (c <? 0xE000) then None
    else Some [to_u8 (0xE0 + c / 4096); to_u8 (0x80 + (c / 64) mod 64);
               to_u8 (0x80 + c mod 64)]
  else if c <? 0x110000 then
    Some [to_u8 (0xF0 + c / 262144); to_u8 (0x80 + (c / 4096) mod 64);
          to_u8 (0x80 + (c / 64) mod 64); to_u8 (0x80 + c mod 64)]
  else None.

(** [s.encode('utf-8')]; [None] is [UnicodeEncodeError]. *)
Fixpoint utf8_encode (s : str) : option bytes :=
  match s with
  | [] => Some []
  | c :: rest =>
      match encode_cp c, utf8_encode rest with
      | Some bs, Some tail => Some (bs ++ tail)
      | _, _ => None
      end
  end.

(** The payload of a continuation byte [10xxxxxx]. *)
Definition cont (b : byte) : option Z :=
  let x := u8 b in
  if (0x80 <=? x) && (x <? 0xC0) then Some (x - 0x80) else None.

(** [bs.decode('utf-8')], strict: [None] is [UnicodeDecodeError], raised on
    stray or missing continuation bytes, overlong forms, surrogates and
    values above [0x10FFFF]. *)
Fixpoint utf8_decode (bs : bytes) : option str :=
  match bs with
  | [] => Some []
  | b0 :: r0 =>
      let x0 := u8 b0 in
      if x0 <? 0x80 then cons x0 <$> utf8_decode r0
      else if x0 <? 0xC0 then None
      else if x0 <? 0xE0 then
        match r0 with
        | b1 :: r1 =>
            match cont b1 with
            | Some y1 =>
                let c := (x0 - 0xC0) * 64 + y1 in
                if c <? 0x80 then None else cons c <$> utf8_decode r1
            | None => None
            end
        | _ => None
        end
      else if x0 <? 0xF0 then
        match r0 with
        | b1 :: b2 :: r2 =>
            match cont b1, cont b2 with
            | Some y1, Some y2 =>
                let c := (x0 - 0xE0) * 4096 + y1 * 64 + y2 in
                if (c <? 0x800) || ((0xD800 <=? c) && (c <? 0xE000)) then None
                else cons c <$> utf8_decode r2
            | _, _ => None
            end
        | _ => None
        end
      else if x0 <? 0xF8 then
        match r0 with
        | b1 :: b2 :: b3 :: r3 =>
            match cont b1, cont b2, cont b3 with
            | Some y1, Some y2, Some y3 =>
                let c := (x0 - 0xF0) * 262144 + y1 * 4096 + y2 * 64 + y3 in
                if (c <? 0x10000) || (0x110000 <=? c) then None
                else cons c <$> utf8_decode r3
            | _, _, _ => None
            end
        | _ => None
        end
      else None
  end.

End Utf8.
Export Utf8.

(* ================================================================== *)
(** ** SHA-256 (FIPS 180-4), the hash of [hashes.SHA256()] *)

Module Sha256.

(** 32-bit words are integers in [0, 2^32); additions wrap. *)
Definition add32 (a b : Z) : Z := (a + b) mod 2 ^ 32.
Definition rotr (n x : Z) : Z :=
  Z.lor (Z.shiftr x n) (Z.shiftl x (32 - n) mod 2 ^ 32).
Definition not32 (x : Z) : Z := Z.lxor x 0xFFFFFFFF.

Definition Ch (x y z : Z) : Z := Z.lxor (Z.land x y) (Z.land (not32 x) z).
Definition Maj (x y z : Z) : Z :=
  Z.lxor (Z.land x y) (Z.lxor (Z.land x z) (Z.land y z)).
Definition Sigma0 (x : Z) : Z := Z.lxor (rotr 2 x) (Z.lxor (rotr 13 x) (rotr 22 x)).
Definition Sigma1 (x : Z) : Z := Z.lxor (rotr 6 x) (Z.lxor (rotr 11 x) (rotr 25 x)).
Definition sigma0 (x : Z) : Z := Z.lxor (rotr 7 x) (Z.lxor (rotr 18 x) (Z.shiftr x 3)).
Definition sigma1 (x : Z) : Z := Z.lxor (rotr 17 x) (Z.lxor (rotr 19 x) (Z.shiftr x 10)).

(** The first primes, as the standard defines its constants from them. *)
Definition is_prime (n : nat) : bool :=
  (1 <? n)%nat && forallb (fun d => negb (n mod d =? 0)%nat) (seq 2 (n - 2)).

Definition primes : list Z :=
  Eval vm_compute in map Z.of_nat (filter is_prime (seq 2 310)).

(** The integer cube root, one bit at a time from the top. *)
Fixpoint cube_root_bits (bits : nat) (n r : Z) : Z :=
  match bits with
  | O => r
  | S b =>
      let c := r + 2 ^ Z.of_nat b in
      cube_root_bits b n (if c * c * c <=? n then c else r)
  end.

Definition cube_root (n : Z) : Z := cube_root_bits 48 n 0.

(** The round constants: the first 32 bits of the fractional parts of the
    cube roots of the first 64 primes. *)
Definition K : list Z :=
  Eval vm_compute in map (fun p => cube_root (p * 2 ^ 96) mod 2 ^ 32) primes.

(** The eight working variables, and the chaining value. *)
Record regs := Regs { ra : Z; rb : Z; rc : Z; rd : Z; re : Z; rf : Z; rg : Z; rh : Z }.

(** The initial value: the first 32 bits of the fractional parts of the
    square roots of the first eight primes. *)
Definition frac_sqrt (p : Z) : Z := Z.sqrt (p * 2 ^ 64) mod 2 ^ 32.

Definition H0 : regs :=
  Eval vm_compute in
    Regs (frac_sqrt 2) (frac_sqrt 3) (frac_sqrt 5) (frac_sqrt 7)
         (frac_sqrt 11) (frac_sqrt 13) (frac_sqrt 17) (frac_sqrt 19).

(** The message: one [0x80] byte, zero bytes up to 56 modulo 64, and the
    bit length as a 64-bit big-endian integer. *)
Definition pad (msg : bytes) : bytes :=
  let n := Z.of_nat (length msg) in
  msg ++ [x80] ++ repeat x00 (Z.to_nat ((55 - n) mod 64)) ++ be_digits 8 (8 * n).

(** [n] consecutive groups of [k] elements. *)
Fixpoint chunks {A} (k n : nat) (l : list A) : list (list A) :=
  match n with
  | O => []
  | S n' => take k l :: chunks k n' (drop k l)
  end.

(** The message schedule, most recent word first. *)
Definition schedule_step (w : list Z) : list Z :=
  add32 (add32 (sigma1 (nth 1 w 0)) (nth 6 w 0))
        (add32 (sigma0 (nth 14 w 0)) (nth 15 w 0)) :: w.

Definition schedule (block : bytes) : list Z :=
  rev (Nat.iter 48 schedule_step (rev (map from_bytes_big (chunks 4 16 block)))).

Definition round (r : regs) (kw : Z * Z) : regs :=
  let t1 := add32 (add32 (add32 (rh r) (Sigma1 (re r)))
                         (add32 (Ch (re r) (rf r) (rg r)) (fst kw))) (snd kw) in
  let t2 := add32 (Sigma0 (ra r)) (Maj (ra r) (rb r) (rc r)) in
  Regs (add32 t1 t2) (ra r) (rb r) (rc r) (add32 (rd r) t1) (re r) (rf r) (rg r).

Definition compress (h : regs) (block : bytes) : regs :=
  let r := fold_left round (combine K (schedule block)) h in
  Regs (add32 (ra h) (ra r)) (add32 (rb h) (rb r)) (add32 (rc h) (rc r))
       (add32 (rd h) (rd r)) (add32 (re h) (re r)) (add32 (rf h) (rf r))
       (add32 (rg h) (rg r)) (add32 (rh h) (rh r)).

Definition digest (h : regs) : bytes :=
  flat_map (be_digits 4) [ra h; rb h; rc h; rd h; re h; rf h; rg h; rh h].

Definition sha256 (msg : bytes) : bytes :=
  let p := pad msg in
  digest (fold_left compress (chunks 64 (length p / 64) p) H0).

End Sha256.

(* ================================================================== *)
(** ** HMAC-SHA-256 (RFC 2104) *)

Module Hmac.

(** The key as HMAC uses it: a key longer than the 64-byte block is hashed,
    and the result is filled up with zero bytes to one block. *)
Definition key_block (key : bytes) : bytes :=
  let k := if decide (64 < length key)%nat then Sha256.sha256 key else key in
  k ++ repeat x00 (64 - length k).

Definition hmac_block (k0 msg : bytes) : bytes :=
  Sha256.sha256 (map (bxor x5c) k0 ++ Sha256.sha256 (map (bxor x36) k0 ++ msg)).

Definition hmac (key msg : bytes) : bytes := hmac_block (key_block key) msg.

End Hmac.

(* ================================================================== *)
(** ** PBKDF2 (RFC 8018) with HMAC-SHA-256 *)

Module Pbkdf2.

(** One more iteration: the pair is (U_j, U_1 xor ... xor U_j). *)
Definition step (k0 : bytes) (st : bytes * bytes) : bytes * bytes :=
  let u := Hmac.hmac_block k0 (fst st) in (u, zip_with bxor (snd st) u).

(** The block T_i for [c] iterations. *)
Definition F (k0 salt : bytes) (c : N) (i : Z) : bytes :=
  let u1 := Hmac.hmac_block k0 (salt ++ be_digits 4 i) in
  snd (N.iter (c - 1) (step k0) (u1, u1)).

(** The first [dklen] bytes of T_1 || T_2 || ... *)
Definition pbkdf2_hmac_sha256 (password salt : bytes) (c : N) (dklen : nat) : bytes :=
  let k0 := Hmac.key_block password in
  take dklen
    (flat_map (fun i => F k0 salt c (Z.of_nat i)) (seq 1 ((dklen + 31) / 32))).

End Pbkdf2.

(* ================================================================== *)
(** ** [base64.urlsafe_b64encode] *)

Module Base64.

Definition alphabet : bytes :=
  of_string "ABCDEFGHIJKLMNOPQRSTUVWXYZabcdefghijklmnopqrstuvwxyz0123456789-_".

Definition sextet (n : Z) : byte := nth (Z.to_nat (n mod 64)) alphabet x00.

Definition pad_char : byte := "="%byte.

Fixpoint urlsafe_b64encode (l : bytes) : bytes :=
  match l with
  | [] => []
  | [a] =>
      let n := u8 a * 65536 in
      [sextet (n / 262144); sextet (n / 4096); pad_char; pad_char]
  | [a; b] =>
      let n := u8 a * 65536 + u8 b * 256 in
      [sextet (n / 262144); sextet (n / 4096); sextet (n / 64); pad_char]
  | a :: b :: c :: rest =>
      let n := u8 a * 65536 + u8 b * 256 + u8 c in
      sextet (n / 262144) :: sextet (n / 4096) :: sextet (n / 64) :: sextet n
        :: urlsafe_b64encode rest
  end.

End Base64.

(* ================================================================== *)
(** ** The Python side: exceptions, interpreter state, effects *)

Module Py.

(** The exceptions that the modelled code and its libraries raise.  All of
    them derive from [Exception]. *)
Inductive exn : Type :=
  | ValueError (msg : string)
  | OverflowError
  | UnicodeEncodeError
  | UnicodeDecodeError
  | InvalidToken
  | cv2_error.

(** What a call can read and change besides its arguments: the buffers of the
    [ndarray] objects (several arrays may be views on one buffer), the
    operating system's entropy source read by [os.urandom], and the clock. *)
Record world : Type := World {
  heap : gmap positive bytes;
  entropy : nat -> byte;
  cursor : nat;
  clock : Z
}.

Definition set_heap (h : gmap positive bytes) (w : world) : world :=
  World h (entropy w) (cursor w) (clock w).

(** A computation returns a value or raises, and leaves a state either way. *)
Definition M (A : Type) : Type := world -> (exn + A) * world.

Definition ret {A} (x : A) : M A := fun w => (inr x, w).
Definition raise {A} (e : exn) : M A := fun w => (inl e, w).
Definition bind {A B} (m : M A) (k : A -> M B) : M B :=
  fun w => match m w with
           | (inr x, w') => k x w'
           | (inl e, w') => (inl e, w')
           end.

(** [try: body except Exception: handler]. *)
Definition try_except {A} (body : M A) (handler : exn -> M A) : M A :=
  fun w => match body w with
           | (inr x, w') => (inr x, w')
           | (inl e, w') => handler e w'
           end.

(** A library call that raises [e] where the model returns [None]. *)
Definition or_raise {A} (e : exn) (o : option A) : M A :=
  match o with Some x => ret x | None => raise e end.

(** A library call with an outcome of its own. *)
Definition lift {A} (r : exn + A) : M A := fun w => (r, w).

(** [os.urandom(n)]: the next [n] bytes of the entropy source. *)
Definition os_urandom (n : nat) : M bytes :=
  fun w => (inr (map (entropy w) (seq (cursor w) n)),
            World (heap w) (entropy w) (cursor w + n) (clock w)).

(** [int(time.time())]. *)
Definition time_now : M Z := fun w => (inr (clock w), w).

End Py.
Export Py.

Notation "x <- c1 ;; c2" := (bind c1 (fun x => c2))
  (at level 100, c1 at next level, right associativity).
Notation "c1 ;; c2" := (bind c1 (fun _ => c2))
  (at level 100, right associativity).

(* ================================================================== *)
(** ** NumPy arrays and the OpenCV conversions *)

Module Numpy.

Inductive dtype : Type := uint8 | uint16 | float32 | float64.

#[global] Instance dtype_eq_decision : EqDecision dtype.
Proof. solve_decision. Defined.

(** A C-contiguous array: a window of [size] elements starting at [off] in
    the buffer [buf].  Slices and reshapes are views on the same buffer. *)
Record ndarray : Type := NDArray {
  adtype : dtype;
  shape : list nat;
  buf : positive;
  off : nat
}.

Definition product (shp : list nat) : nat := fold_right Nat.mul 1%nat shp.

(** [a.size] and [a.ndim]. *)
Definition size (a : ndarray) : nat := product (shape a).
Definition ndim (a : ndarray) : nat := length (shape a).

(** The elements of [a], in row-major order. *)
Definition values (w : world) (a : ndarray) : bytes :=
  take (size a) (drop (off a) (heap w !!! buf a)).

(** The array refers to allocated memory that holds all its elements. *)
Definition valid (w : world) (a : ndarray) : Prop :=
  exists data, heap w !! buf a = Some data /\ (off a + size a <= length data)%nat.

(** A new array with the given elements. *)
Definition new_array (dt : dtype) (shp : list nat) (data : bytes) : M ndarray :=
  fun w => let l := fresh (dom (heap w)) in
           (inr (NDArray dt shp l 0), set_heap (<[l := data]> (heap w)) w).

(** [a.flatten()]: always a copy, one-dimensional. *)
Definition flatten (a : ndarray) : M ndarray :=
  fun w => new_array (adtype a) [size a] (values w a) w.

(** [a[i:j]] for a one-dimensional [a] and [0 <= i], [0 <= j]: a view. *)
Definition slice (a : ndarray) (i j : nat) : ndarray :=
  let start := Nat.min i (size a) in
  let stop := Nat.min j (size a) in
  NDArray (adtype a) [(stop - start)%nat] (buf a) (off a + start).

(** An in-place operation: the window of [a] in its buffer is replaced. *)
Definition update (f : bytes -> bytes) (a : ndarray) : M unit :=
  fun w => let d := heap w !!! buf a in
           (inr tt,
            set_heap (<[buf a := take (off a) d ++ f (values w a)
                                   ++ drop (off a + size a) d]> (heap w)) w).

(** [a &= c] for a scalar [c]. *)
Definition iand_scalar (a : ndarray) (c : byte) : M unit :=
  update (map (fun x => band x c)) a.

(** [a |= b] for one-dimensional arrays; [b] is broadcast when it has one
    element, and shapes that do not match raise [ValueError]. *)
Definition ior_array (a : ndarray) (b : bytes) : M unit :=
  if (length b =? size a)%nat then update (fun xs => zip_with bor xs b) a
  else match b with
       | [c] => update (map (fun x => bor x c)) a
       | _ => raise (ValueError "operands could not be broadcast together")
       end.

(** [a & c] for a scalar [c]: a new array, given by its elements. *)
Definition and_scalar (a : ndarray) (c : byte) : M bytes :=
  fun w => (inr (map (fun x => band x c) (values w a)), w).

(** [a.reshape(shp)] of a contiguous array: a view. *)
Definition reshape (a : ndarray) (shp : list nat) : M ndarray :=
  if (product shp =? size a)%nat
  then ret (NDArray (adtype a) shp (buf a) (off a))
  else raise (ValueError "cannot reshape array").

(** [repr] of a shape tuple, as an f-string prints it. *)
Definition show_shape (shp : list nat) : string :=
  match shp with
  | [] => "()"
  | [n] => String.append "(" (String.append (pretty n) ",)")
  | n :: rest =>
      String.append "("
        (String.append
           (fold_left (fun acc k => String.append acc (String.append ", " (pretty k)))
                      rest (pretty n))
           ")")
  end.

Inductive color_code : Type := COLOR_GRAY2BGR | COLOR_BGRA2BGR.

(** Every grey sample becomes one blue-green-red pixel. *)
Definition gray2bgr (data : bytes) : bytes := flat_map (fun g => [g; g; g]) data.

(** The fourth sample of every pixel is dropped. *)
Fixpoint bgra2bgr (data : bytes) : bytes :=
  match data with
  | b :: g :: r :: _ :: rest => b :: g :: r :: bgra2bgr rest
  | _ => []
  end.

(** [cv2.cvtColor(src, code)] on the inputs [ensure_rgb_uint8] gives it: a
    new array; an empty source raises [cv2.error]. *)
Definition cvtColor (src : ndarray) (code : color_code) : M ndarray :=
  fun w =>
    if (size src =? 0)%nat then (inl cv2_error, w)
    else match code with
         | COLOR_GRAY2BGR =>
             new_array (adtype src) (shape src ++ [3%nat]) (gray2bgr (values w src)) w
         | COLOR_BGRA2BGR =>
             new_array (adtype src) (take 2 (shape src) ++ [3%nat])
                       (bgra2bgr (values w src)) w
         end.

End Numpy.
Export Numpy.

(* ================================================================== *)
(** ** [cryptography.fernet.Fernet] *)

(** The token format is the library's own.  The model takes the two
    operations the program calls as an interface; what the proofs need of
    them is stated where it is used ([fernet_opens_sealed],
    [fernet_rejects_other_keys]). *)
Class Fernet : Type := {
  (** [Fernet(key)._encrypt_from_parts(data, current_time, iv)], the
      deterministic core of [Fernet(key).encrypt(data)]. *)
  encrypt_from_parts : bytes -> bytes -> Z -> bytes -> exn + bytes;
  (** [Fernet(key).decrypt(token)]. *)
  decrypt : bytes -> bytes -> exn + bytes
}.

(** [Fernet(key).encrypt(data)]: the time is read, sixteen bytes of entropy
    make the initialization vector. *)
Definition fernet_encrypt `{Fernet} (key data : bytes) : M bytes :=
  current_time <- time_now ;;
  iv <- os_urandom 16 ;;
  lift (encrypt_from_parts key data current_time iv).

(* ================================================================== *)
(** ** [helper_functions.py] *)

Module Helper.
Section Helper.

Context `{Fernet}.

Definition MAGIC_HEADER : bytes := of_string "STG1".

Definition derive_key (password : str) (salt : bytes) : M bytes :=
  material <- or_raise UnicodeEncodeError (utf8_encode password) ;;
  ret (Base64.urlsafe_b64encode
         (Pbkdf2.pbkdf2_hmac_sha256 material salt 100000 32)).

Definition encrypt_message (message password : str) : M bytes :=
  salt <- os_urandom 16 ;;
  key <- derive_key password salt ;;
  data <- or_raise UnicodeEncodeError (utf8_encode message) ;;
  token <- fernet_encrypt key data ;;
  ret (salt ++ token).

Definition decrypt_error : str :=
  str_of_string "Error: Incorrect password or corrupted data.".

Definition decrypt_message (data : bytes) (password : str) : M str :=
  try_except
    (if (length data <? 16)%nat then ret decrypt_error
     else
       let salt := take 16 data in
       let token := drop 16 data in
       key <- derive_key password salt ;;
       plain <- lift (decrypt key token) ;;
       or_raise UnicodeDecodeError (utf8_decode plain))
    (fun _ => ret decrypt_error).

Definition ensure_rgb_uint8 (image : ndarray) : M ndarray :=
  if negb (bool_decide (adtype image = uint8))
  then raise (ValueError "Image must be uint8 type")
  else
    image <- (if (ndim image =? 2)%nat
              then cvtColor image COLOR_GRAY2BGR
              else if (ndim image =? 3)%nat && (nth 2 (shape image) 0 =? 4)%nat
              then cvtColor image COLOR_BGRA2BGR
              else ret image) ;;
    if negb (ndim image =? 3)%nat || negb (nth 2 (shape image) 0 =? 3)%nat
    then raise (ValueError
                  (String.append "Image must have 3 channels (RGB/BGR). Found shape: "
                                 (show_shape (shape image))))
    else ret image.

Definition too_small_error : exn :=
  ValueError "Image resolution is too small to safely encode data.".

Definition too_large_error (needed_bits total_bits_available : nat) : exn :=
  ValueError
    (String.append "Message too large. Needed bits: "
       (String.append (pretty needed_bits)
          (String.append ", but only "
             (String.append (pretty total_bits_available) " bits available.")))).

Definition encode (image : ndarray) (message password : str) : M ndarray :=
  image <- ensure_rgb_uint8 image ;;
  if (size image <? 64)%nat then raise too_small_error
  else
    encrypted_payload <- encrypt_message message password ;;
    let payload_content := MAGIC_HEADER ++ encrypted_payload in
    let payload_length := Z.of_nat (length payload_content) in
    length_header <- or_raise OverflowError (to_bytes_big payload_length 4) ;;
    let full_payload := length_header ++ payload_content in
    let payload_bits := unpackbits full_payload in
    let needed_bits := length payload_bits in
    let total_bits_available := size image in
    if (total_bits_available <? needed_bits)%nat
    then raise (too_large_error needed_bits total_bits_available)
    else
      flat_image <- flatten image ;;
      let flat_image_view := slice flat_image 0 needed_bits in
      iand_scalar flat_image_view xfe ;;
      ior_array flat_image_view payload_bits ;;
      encoded_image <- reshape flat_image (shape image) ;;
      ret encoded_image.

Definition no_data_error : str :=
  str_of_string "Error: No valid steganography data found.".

Definition incomplete_error : str :=
  str_of_string "Error: Encoded data incomplete or corrupted.".

Definition decode_image (image : ndarray) (password : str) : M str :=
  image <- ensure_rgb_uint8 image ;;
  flat_image <- flatten image ;;
  header_bits <- and_scalar (slice flat_image 0 32) x01 ;;
  let header_bytes := packbits header_bits in
  let payload_length := from_bytes_big header_bytes in
  if payload_length <=? 0 then ret no_data_error
  else
    let max_payload_bytes := (Z.of_nat (size flat_image) - 32) / 8 in
    if payload_length >? max_payload_bytes then ret incomplete_error
    else
      let total_payload_bits := payload_length * 8 in
      let end_index := 32 + total_payload_bits in
      if end_index >? Z.of_nat (size flat_image) then ret incomplete_error
      else
        payload_bits <- and_scalar (slice flat_image 32 (Z.to_nat end_index)) x01 ;;
        let payload_bytes := packbits payload_bits in
        if (length payload_bytes <? 4)%nat
           || negb (bool_decide (take 4 payload_bytes = MAGIC_HEADER))
        then ret no_data_error
        else
          let encrypted_data := drop 4 payload_bytes in
          decrypt_message encrypted_data password.

End Helper.
End Helper.
Export Helper.

(* ================================================================== *)
(** ** Vocabulary of the statements *)

(** A value that [np.unpackbits] produces. *)
Definition is_bit (b : byte) : Prop := b = x00 \/ b = x01.

(** The least-significant bit of a sample replaced by [b]: what
    [view &= 0xFE; view |= bits] does to one element. *)
Definition set_lsb (x b : byte) : byte := bor (band x xfe) b.

Ltac decide_ltb :=
  repeat match goal with
         | |- context [?a <? ?b] => destruct (Z.ltb_spec a b); try lia
         | |- context [?a <=? ?b] => destruct (Z.leb_spec a b); try lia
         end.


(** The key [derive_key] returns for a password and a salt, or the
    exception it raises. *)
Definition key_of (password : str) (salt : bytes) : exn + bytes :=
  match utf8_encode password with
  | Some material =>
      inr (Base64.urlsafe_b64encode
             (Pbkdf2.pbkdf2_hmac_sha256 material salt 100000 32))
  | None => inl UnicodeEncodeError
  end.

(** A key as [Fernet] takes it: 32 bytes, in url-safe base64. *)
Definition fernet_key (key : bytes) : Prop :=
  exists raw, length raw = 32%nat /\ key = Base64.urlsafe_b64encode raw.

(** What the proofs assume of the library (section 4.2 of the
    specification): a token opens under the key that sealed it ... *)
Definition fernet_opens_sealed `{Fernet} : Prop :=
  forall key data t iv token,
    fernet_key key ->
    encrypt_from_parts key data t iv = inr token ->
    decrypt key token = inr data.


(** A normalized image: [uint8], height x width x 3. *)
Definition three_channel (a : ndarray) : Prop :=
  adtype a = uint8 /\ exists h w, shape a = [h; w; 3%nat].

(** The samples [encode] leaves behind: the first [length bits] samples
    carry the bits in their least-significant position. *)
Definition embedded (bits samples : bytes) : bytes :=
  zip_with set_lsb (take (length bits) samples) bits
  ++ drop (length bits) samples.

(** The framed payload: length header, magic signature, salt, token. *)
Definition framed (salt token : bytes) : bytes :=
  be_digits 4 (Z.of_nat (length (MAGIC_HEADER ++ salt ++ token)))
  ++ MAGIC_HEADER ++ salt ++ token.

(** Steps 1 to 3 of [encode] (lines 87 to 100) on their own: the bitstream
    to embed. *)
Definition payload_bits_of `{Fernet} (message password : str) : M bytes :=
  encrypted_payload <- encrypt_message message password ;;
  let payload_content := MAGIC_HEADER ++ encrypted_payload in
  let payload_length := Z.of_nat (length payload_content) in
  length_header <- or_raise OverflowError (to_bytes_big payload_length 4) ;;
  let full_payload := length_header ++ payload_content in
  ret (unpackbits full_payload).

(** Steps 5 to 7 of [encode] (lines 109 to 121) on their own. *)
Definition embed_bits (image : ndarray) (payload_bits : bytes) : M ndarray :=
  flat_image <- flatten image ;;
  let flat_image_view := slice flat_image 0 (length payload_bits) in
  iand_scalar flat_image_view xfe ;;
  ior_array flat_image_view payload_bits ;;
  encoded_image <- reshape flat_image (shape image) ;;
  ret encoded_image.

(** The state after [n] more bytes of entropy were drawn. *)
Definition drawn (n : nat) (w : world) : world :=
  World (heap w) (entropy w) (cursor w + n) (clock w).

(** The bytes [os.urandom(n)] returns when the cursor stands at [k]. *)
Definition entropy_at (w : world) (k n : nat) : bytes :=
  map (entropy w) (seq k n).

(** The least-significant bits of a run of samples: [samples & 1]. *)
Definition lsbs (samples : bytes) : bytes := map (fun x => band x x01) samples.

(** The length header that [decode_image] reads off the samples. *)
Definition header_of (samples : bytes) : Z :=
  from_bytes_big (packbits (lsbs (take 32 samples))).

(** The payload bytes that [decode_image] reads off the samples when the
    header says [n] bytes. *)
Definition payload_of (samples : bytes) (n : Z) : bytes :=
  packbits (lsbs (take (Z.to_nat (32 + n * 8) - 32) (drop 32 samples))).

(** What [decrypt_message] returns. *)
Definition opened `{Fernet} (data : bytes) (password : str) : str :=
  if (length data <? 16)%nat then decrypt_error
  else match key_of password (take 16 data) with
       | inl _ => decrypt_error
       | inr key =>
           match decrypt key (drop 16 data) with
           | inl _ => decrypt_error
           | inr plain =>
               match utf8_decode plain with
               | None => decrypt_error
               | Some message => message
               end
           end
       end.

(** What [decode_image] returns for a normalized image with these samples. *)
Definition decoded `{Fernet} (samples : bytes) (total : nat) (password : str) : str :=
  let n := header_of samples in
  if n <=? 0 then no_data_error
  else if n >? (Z.of_nat total - 32) / 8 then incomplete_error
  else if 32 + n * 8 >? Z.of_nat total then incomplete_error
  else
    let payload := payload_of samples n in
    if (length payload <? 4)%nat || negb (bool_decide (take 4 payload = MAGIC_HEADER))
    then no_data_error
    else opened (drop 4 payload) password.

(** The ways in which [decrypt_message] fails on the bytes that follow the
    magic signature: fewer than sixteen bytes; a password that cannot be
    encoded; a token the library refuses; a plaintext that is not UTF-8. *)
Definition decryption_fails `{Fernet} (data : bytes) (password : str) : Prop :=
  (length data < 16)%nat \/
  (exists e, key_of password (take 16 data) = inl e) \/
  (exists key e, key_of password (take 16 data) = inr key /\
                 decrypt key (drop 16 data) = inl e) \/
  (exists key plain, key_of password (take 16 data) = inr key /\
                     decrypt key (drop 16 data) = inr plain /\
                     utf8_decode plain = None).

(** The state after a new buffer was allocated. *)
Definition allocated (data : bytes) (w : world) : world :=
  set_heap (<[fresh (dom (heap w)) := data]> (heap w)) w.

(* ================================================================== *)
(** ** Instances used to exhibit the theorems on concrete inputs *)

Module Example.

(** A stand-in for the library that meets the two properties assumed of it:
    a token is the key followed by the data, and opening a token checks the
    key. It hides nothing; it only shows that the assumptions can be met. *)
Definition tagging_fernet : Fernet := {|
  encrypt_from_parts key data _ _ :=
    if (length key =? 44)%nat then inr (key ++ data)
    else inl (ValueError "Fernet key must be 32 url-safe base64-encoded bytes.");
  decrypt key token :=
    if (length key =? 44)%nat && bool_decide (take 44 token = key)
    then inr (drop 44 token)
    else inl InvalidToken
|}.

(** An interpreter state with one buffer, at address 1. *)
Definition world_with (data : bytes) : world :=
  World {[ 1%positive := data ]} (fun i => to_u8 (Z.of_nat i)) 0 1700000000.

(** A [height] x [width] image of three channels on that buffer. *)
Definition image (height width : nat) : ndarray :=
  NDArray uint8 [height; width; 3%nat] 1 0.

(** A buffer of [n] samples, all 255. *)
Definition white (n : nat) : bytes := repeat xff n.

(** A buffer of [n] samples, all 0. *)
Definition black (n : nat) : bytes := repeat x00 n.

(** The key derived from an encoded password. *)
Definition key_for (material salt : bytes) : bytes :=
  Base64.urlsafe_b64encode (Pbkdf2.pbkdf2_hmac_sha256 material salt 100000 32).

(** The framed bitstream of an encoded message under an encoded password,
    with the stand-in library, in the state [w]. *)
Definition bits_for (data material : bytes) (w : world) : bytes :=
  let salt := entropy_at w (cursor w) 16 in
  unpackbits (framed salt (key_for material salt ++ data)).

(** Two messages, three passwords. *)
Definition hi : list Z := map u8 (of_string "hi").
Definition x : list Z := map u8 (of_string "x").
Definition secret : list Z := map u8 (of_string "secret").
Definition a : list Z := [97].

End Example.

(* ================================================================== *)
(** ** [base64.b64encode], the standard alphabet *)

Module Base64Std.

Definition alphabet : bytes :=
  of_string "ABCDEFGHIJKLMNOPQRSTUVWXYZabcdefghijklmnopqrstuvwxyz0123456789+/".

Definition digit (n : Z) : byte := nth (Z.to_nat (n mod 64)) alphabet x00.

(** Three bytes make four digits; a last group of one or two bytes is
    closed with "=". *)
Fixpoint b64encode (s : bytes) : bytes :=
  match s with
  | [] => []
  | [b0] =>
      let n := u8 b0 * 65536 in
      [digit (n / 262144); digit (n / 4096); "="%byte; "="%byte]
  | [b0; b1] =>
      let n := u8 b0 * 65536 + u8 b1 * 256 in
      [digit (n / 262144); digit (n / 4096); digit (n / 64); "="%byte]
  | b0 :: b1 :: b2 :: rest =>
      let n := u8 b0 * 65536 + u8 b1 * 256 + u8 b2 in
      digit (n / 262144) :: digit (n / 4096) :: digit (n / 64) :: digit n
        :: b64encode rest
  end.

End Base64Std.

(* ================================================================== *)
(** ** The image files of [app.py]: Pillow and [cv2.imencode] *)

(** Reading and writing image files is the libraries' business. The model
    takes the two calls of [app.py] as an interface. *)
Class ImageFiles : Type := {
  (** [np.array(Image.open(BytesIO(data)).convert("RGB"))]: the height, the
      width and the samples, red first, of the picture in the file, or the
      exception Pillow raises. *)
  open_rgb : bytes -> exn + (nat * nat * bytes);
  (** [cv2.imencode(".png", img)[1]] for an array of the given shape and
      samples (blue first), or the exception OpenCV raises. *)
  imencode_png : list nat -> bytes -> exn + bytes
}.

(* ================================================================== *)
(** ** [app.py] *)

Module App.
Section App.

Context `{Fernet} `{ImageFiles}.

(** [flask.request]: the uploaded files by field name, with their content,
    and the form fields. *)
Record request : Type := Request {
  files : gmap string bytes;
  form : gmap string str
}.

(** What a view returns: the object given to [jsonify], and the status
    (200 when the view returns the object alone). An exception that leaves
    the view is an outcome [inl] of the computation. *)
Record response : Type := Response {
  body : list (string * str);
  status : Z
}.

(** Red and blue change places in every pixel. *)
Fixpoint rgb2bgr (data : bytes) : bytes :=
  match data with
  | r :: g :: b :: rest => b :: g :: r :: rgb2bgr rest
  | _ => []
  end.

(** [cv2.cvtColor(img, cv2.COLOR_RGB2BGR)] on a three-channel array: a new
    array; an empty source raises [cv2.error]. *)
Definition cvtColor_RGB2BGR (src : ndarray) : M ndarray :=
  fun w =>
    if (size src =? 0)%nat then (inl cv2_error, w)
    else new_array (adtype src) (shape src) (rgb2bgr (values w src)) w.

(** Lines 24 to 30 and 52 to 58: the uploaded file as the array the helpers
    get. *)
Definition read_image (image : bytes) : M ndarray :=
  picture <- lift (open_rgb image) ;;
  img <- new_array uint8 [picture.1.1; picture.1.2; 3%nat] picture.2 ;;
  cvtColor_RGB2BGR img.

Definition missing_data : response :=
  Response [("error"%string, str_of_string "Missing data")] 400.

(** The view of [/encode]. The three lookups stand for the membership tests
    of line 17 and the subscripts of lines 20 to 22. *)
Definition encode_message (req : request) : M response :=
  match files req !! "image"%string,
        form req !! "message"%string,
        form req !! "password"%string with
  | Some image, Some message, Some password =>
      img <- read_image image ;;
      encoded_img <- encode img message password ;;
      encoded_buffer <-
        (fun w => (imencode_png (shape encoded_img) (values w encoded_img), w)) ;;
      let encoded_image_base64 := map u8 (Base64Std.b64encode encoded_buffer) in
      let encoded_image_data_url :=
        str_of_string "data:image/png;base64," ++ encoded_image_base64 in
      ret (Response [("encoded_image"%string, encoded_image_data_url)] 200)
  | _, _, _ => ret missing_data
  end.

Definition missing_image_or_password : response :=
  Response [("error"%string, str_of_string "Missing image or password")] 400.

(** The view of [/decode]. *)
Definition decode_message (req : request) : M response :=
  match files req !! "image"%string, form req !! "password"%string with
  | Some image, Some password =>
      img <- read_image image ;;
      decoded_message <- decode_image img password ;;
      ret (Response [("decoded_message"%string, decoded_message)] 200)
  | _, _ => ret missing_image_or_password
  end.

End App.
End App.

(* ================================================================== *)
(** ** A stand-in for the image files *)

Module ExampleApp.

(** A file is the height, the width (each below 256) and the samples, red
    first. *)
Definition plain_files : ImageFiles := {|
  open_rgb file :=
    match file with
    | h :: wd :: data =>
        if (length data =? Z.to_nat (u8 h) * Z.to_nat (u8 wd) * 3)%nat
        then inr (Z.to_nat (u8 h), Z.to_nat (u8 wd), data)
        else inl (ValueError "cannot identify image file")
    | _ => inl (ValueError "cannot identify image file")
    end;
  imencode_png shp data :=
    match shp with
    | [h; wd; 3%nat] =>
        if (h <? 256)%nat && (wd <? 256)%nat
        then inr (to_u8 (Z.of_nat h) :: to_u8 (Z.of_nat wd) :: App.rgb2bgr data)
        else inl cv2_error
    | _ => inl cv2_error
    end
|}.

(** A picture of 16 x 16 white pixels, as a file. *)
Definition white_file : bytes := x10 :: x10 :: Example.white 768.

End ExampleApp.
(* ================================================================== *)
(** * Properties *)

(** ** Bytes and bits *)

Lemma u8_range (b : byte) : 0 <= u8 b < 256.
Proof.
  unfold u8. pose proof (Byte.to_N_bounded b). lia.
Qed.

Lemma to_u8_u8 (b : byte) : to_u8 (u8 b) = b.
Proof.
  unfold to_u8. pose proof (u8_range b) as Hr.
  rewrite Z.mod_small by lia. unfold u8. rewrite N2Z.id.
  now rewrite Byte.of_to_N.
Qed.

Lemma u8_to_u8 (z : Z) : u8 (to_u8 z) = z mod 256.
Proof.
  unfold to_u8, u8.
  pose proof (Z.mod_pos_bound z 256 ltac:(lia)) as Hr.
  destruct (Byte.of_N (Z.to_N (z mod 256))) as [b|] eqn:E.
  - apply Byte.to_of_N in E. rewrite E. lia.
  - apply Byte.of_N_None_iff in E. lia.
Qed.

Lemma u8_to_u8_small (z : Z) : 0 <= z < 256 -> u8 (to_u8 z) = z.
Proof. intros. rewrite u8_to_u8. now apply Z.mod_small. Qed.

Lemma u8_inj (a b : byte) : u8 a = u8 b -> a = b.
Proof. intros E. rewrite <- (to_u8_u8 a), <- (to_u8_u8 b). now rewrite E. Qed.

Lemma bit_of_is_bit b i : is_bit (bit_of b i).
Proof. unfold is_bit, bit_of. destruct (Z.testbit _ _); auto. Qed.

Lemma unpack_byte_length b : length (unpack_byte b) = 8%nat.
Proof. reflexivity. Qed.

Lemma unpackbits_length (l : bytes) : length (unpackbits l) = (8 * length l)%nat.
Proof.
  induction l as [|b l IH]; [reflexivity|].
  cbn [unpackbits flat_map]. rewrite length_app, unpack_byte_length.
  fold (unpackbits l). rewrite IH. cbn [length]. lia.
Qed.

Lemma unpackbits_app (l1 l2 : bytes) :
  unpackbits (l1 ++ l2) = unpackbits l1 ++ unpackbits l2.
Proof. unfold unpackbits. apply flat_map_app. Qed.

Lemma unpackbits_bits (l : bytes) : Forall is_bit (unpackbits l).
Proof.
  induction l as [|b l IH]; [constructor|].
  cbn [unpackbits flat_map]. apply Forall_app. split; [|exact IH].
  unfold unpack_byte. cbn [map].
  repeat (apply Forall_cons_2; [apply bit_of_is_bit|]). apply Forall_nil_2.
Qed.

Lemma pack_unpack_byte (b : byte) : pack_byte (unpack_byte b) = b.
Proof. destruct b; vm_compute; reflexivity. Qed.

Lemma packbits_unpackbits (l : bytes) : packbits (unpackbits l) = l.
Proof.
  induction l as [|b l IH]; [reflexivity|].
  cbn [unpackbits flat_map]. fold (unpackbits l).
  change (unpack_byte b) with
    [bit_of b 7; bit_of b 6; bit_of b 5; bit_of b 4;
     bit_of b 3; bit_of b 2; bit_of b 1; bit_of b 0].
  cbn [app packbits]. rewrite IH. f_equal. apply (pack_unpack_byte b).
Qed.

Lemma set_lsb_lsb (x b : byte) : is_bit b -> band (set_lsb x b) x01 = b.
Proof. intros [-> | ->]; destruct x; vm_compute; reflexivity. Qed.

Lemma set_lsb_upper (x b : byte) :
  is_bit b -> Z.shiftr (u8 (set_lsb x b)) 1 = Z.shiftr (u8 x) 1.
Proof. intros [-> | ->]; destruct x; vm_compute; reflexivity. Qed.

Lemma be_digits_length len n : length (be_digits len n) = len.
Proof. induction len as [|k IH]; cbn [be_digits length]; congruence. Qed.

Lemma to_bytes_big_length n len bs : to_bytes_big n len = Some bs -> length bs = len.
Proof.
  unfold to_bytes_big. destruct (_ && _); [|discriminate].
  intros [= <-]. apply be_digits_length.
Qed.

Lemma to_bytes_big_Some n len bs :
  to_bytes_big n len = Some bs <-> 0 <= n < 256 ^ Z.of_nat len /\ bs = be_digits len n.
Proof.
  unfold to_bytes_big. 
  destruct (0 <=? n) eqn:E1; destruct (n <? 256 ^ Z.of_nat len) eqn:E2; cbn [andb];
  try apply Z.leb_le in E1; try apply Z.ltb_lt in E2; try apply Z.leb_gt in E1; try apply Z.ltb_ge in E2;
  split; try (intros [= <-]); try intros [? ->]; try lia; auto; try discriminate.
Qed.

Lemma from_bytes_big_acc (l : bytes) (acc : Z) :
  fold_left (fun a b => a * 256 + u8 b) l acc
  = acc * 256 ^ Z.of_nat (length l) + from_bytes_big l.
Proof.
  unfold from_bytes_big. revert acc.
  induction l as [|b l IH]; intros acc.
  - cbn. lia.
  - cbn [fold_left length]. rewrite IH, (IH (0 * 256 + u8 b)).
    rewrite Nat2Z.inj_succ, Z.pow_succ_r by lia. lia.
Qed.

Lemma from_bytes_big_app (l1 l2 : bytes) :
  from_bytes_big (l1 ++ l2)
  = from_bytes_big l1 * 256 ^ Z.of_nat (length l2) + from_bytes_big l2.
Proof.
  unfold from_bytes_big at 1. rewrite fold_left_app.
  apply from_bytes_big_acc.
Qed.

Lemma from_bytes_be_digits len n :
  0 <= n -> from_bytes_big (be_digits len n) = n mod 256 ^ Z.of_nat len.
Proof.
  intros Hn. induction len as [|k IH].
  - cbn. now rewrite Z.mod_1_r.
  - cbn [be_digits]. change (?x :: ?l) with ([x] ++ l).
    rewrite from_bytes_big_app, be_digits_length, IH.
    unfold from_bytes_big at 1. cbn [fold_left]. rewrite u8_to_u8.
    rewrite Nat2Z.inj_succ, Z.pow_succ_r by lia.
    assert (0 < 256 ^ Z.of_nat k) by (apply Z.pow_pos_nonneg; lia).
    set (P := 256 ^ Z.of_nat k) in *.
    rewrite (Z.mul_comm 256 P).
    rewrite Z.rem_mul_r by lia. lia.
Qed.

Lemma from_bytes_to_bytes n len bs :
  to_bytes_big n len = Some bs -> from_bytes_big bs = n.
Proof.
  intros [Hr ->]%to_bytes_big_Some. rewrite from_bytes_be_digits by lia.
  apply Z.mod_small; lia.
Qed.

(** ** UTF-8: decoding inverts encoding *)

Lemma cont_to_u8 (y : Z) : 0 <= y < 64 -> cont (to_u8 (0x80 + y)) = Some y.
Proof.
  intros Hy. unfold cont. rewrite u8_to_u8_small by lia.
  destruct (Z.leb_spec 0x80 (0x80 + y)); [|lia].
  destruct (Z.ltb_spec (0x80 + y) 0xC0); [|lia].
  cbn [andb]. f_equal. lia.
Qed.

Lemma utf8_decode_encode_cp (c : Z) (bs rest : bytes) :
  encode_cp c = Some bs ->
  utf8_decode (bs ++ rest) = cons c <$> utf8_decode rest.
Proof.
  unfold encode_cp.
  destruct (Z.ltb_spec c 0); [discriminate|].
  destruct (Z.ltb_spec c 0x80).
  { intros [= <-]. cbn [app utf8_decode]. rewrite u8_to_u8_small by lia.
    destruct (Z.ltb_spec c 0x80); [reflexivity|lia]. }
  destruct (Z.ltb_spec c 0x800).
  { intros [= <-]. cbn [app utf8_decode].
    pose proof (Z.div_mod c 64 ltac:(lia)).
    pose proof (Z.mod_pos_bound c 64 ltac:(lia)).
    rewrite u8_to_u8_small by lia. rewrite cont_to_u8 by lia.
    cbn zeta. decide_ltb. do 2 f_equal. lia. }
  destruct (Z.ltb_spec c 0x10000).
  { destruct (Z.leb_spec 0xD800 c); destruct (Z.ltb_spec c 0xE000); cbn [andb];
      try discriminate; intros [= <-]; cbn [app utf8_decode];
      pose proof (Z.div_mod c 4096 ltac:(lia));
      pose proof (Z.mod_pos_bound c 4096 ltac:(lia));
      pose proof (Z.div_mod c 64 ltac:(lia));
      pose proof (Z.mod_pos_bound c 64 ltac:(lia));
      pose proof (Z.div_mod (c / 64) 64 ltac:(lia));
      pose proof (Z.mod_pos_bound (c / 64) 64 ltac:(lia));
      assert (c / 4096 = c / 64 / 64) by (rewrite Z.div_div by lia; reflexivity);
      rewrite u8_to_u8_small by lia; rewrite !cont_to_u8 by lia;
      cbn zeta;
      assert ((224 + c / 4096 - 224) * 4096 + (c / 64) mod 64 * 64 + c mod 64 = c) as -> by lia;
      decide_ltb; reflexivity. }
  destruct (Z.ltb_spec c 0x110000); [|discriminate].
  intros [= <-]. cbn [app utf8_decode].
  pose proof (Z.div_mod c 64 ltac:(lia)).
  pose proof (Z.mod_pos_bound c 64 ltac:(lia)).
  pose proof (Z.div_mod (c / 64) 64 ltac:(lia)).
  pose proof (Z.mod_pos_bound (c / 64) 64 ltac:(lia)).
  pose proof (Z.div_mod (c / 64 / 64) 64 ltac:(lia)).
  pose proof (Z.mod_pos_bound (c / 64 / 64) 64 ltac:(lia)).
  assert (c / 4096 = c / 64 / 64) as E1 by (rewrite Z.div_div by lia; reflexivity).
  assert (c / 262144 = c / 64 / 64 / 64) as E2 by (rewrite !Z.div_div by lia; reflexivity).
  rewrite E1, E2.
  rewrite u8_to_u8_small by lia. rewrite !cont_to_u8 by lia.
  cbn zeta.
  assert ((240 + c / 64 / 64 / 64 - 240) * 262144 + (c / 64 / 64) mod 64 * 4096
          + (c / 64) mod 64 * 64 + c mod 64 = c) as -> by lia.
  decide_ltb. reflexivity.
Qed.

Lemma utf8_decode_encode (s : str) (bs : bytes) :
  utf8_encode s = Some bs -> utf8_decode bs = Some s.
Proof.
  revert bs. induction s as [|c s IH]; intros bs.
  - intros [= <-]. reflexivity.
  - cbn [utf8_encode].
    destruct (encode_cp c) as [b1|] eqn:E1; [|discriminate].
    destruct (utf8_encode s) as [b2|] eqn:E2; [|discriminate].
    intros [= <-]. rewrite (utf8_decode_encode_cp c b1 b2 E1).
    now rewrite (IH b2 eq_refl).
Qed.

(** ** The library models agree with the libraries

    Published test vectors: FIPS 180-4 ("abc"), RFC 4231 (test case 2),
    and PBKDF2-HMAC-SHA256 for "password" and "salt" with one and with two
    iterations. *)

Example sha256_abc :
  map u8 (Sha256.sha256 (of_string "abc")) =
    [186; 120; 22; 191; 143; 1; 207; 234; 65; 65; 64; 222; 93; 174; 34; 35;
    176; 3; 97; 163; 150; 23; 122; 156; 180; 16; 255; 97; 242; 0; 21; 173].
Proof. vm_compute. reflexivity. Qed.

Example hmac_sha256_rfc4231_2 :
  map u8 (Hmac.hmac (of_string "Jefe") (of_string "what do ya want for nothing?")) =
    [91; 220; 193; 70; 191; 96; 117; 78; 106; 4; 36; 38; 8; 149; 117; 199;
    90; 0; 63; 8; 157; 39; 57; 131; 157; 236; 88; 185; 100; 236; 56; 67].
Proof. vm_compute. reflexivity. Qed.

Example pbkdf2_one_iteration :
  map u8 (Pbkdf2.pbkdf2_hmac_sha256 (of_string "password") (of_string "salt") 1 32) =
    [18; 15; 182; 207; 252; 248; 179; 44; 67; 231; 34; 82; 86; 196; 248;
    55; 168; 101; 72; 201; 44; 204; 53; 72; 8; 5; 152; 124; 183; 11; 225;
    123].
Proof. vm_compute. reflexivity. Qed.

Example pbkdf2_two_iterations :
  map u8 (Pbkdf2.pbkdf2_hmac_sha256 (of_string "password") (of_string "salt") 2 32) =
    [174; 77; 12; 149; 175; 107; 70; 211; 45; 10; 223; 249; 40; 240; 109;
    208; 42; 48; 63; 142; 243; 194; 81; 223; 214; 226; 216; 90; 149; 71;
    76; 67].
Proof. vm_compute. reflexivity. Qed.

Example urlsafe_b64encode_bytes :
  Base64.urlsafe_b64encode [xfb; xff; xfe; x01; x02] = of_string "-__-AQI=".
Proof. reflexivity. Qed.

Example utf8_encode_euro : utf8_encode [0x20AC; 0x1F600] = Some [xe2; x82; xac; xf0; x9f; x98; x80].
Proof. reflexivity. Qed.

Example utf8_encode_surrogate : utf8_encode [0xD800] = None.
Proof. reflexivity. Qed.

Example utf8_decode_overlong : utf8_decode [xc0; x80] = None.
Proof. reflexivity. Qed.

Example packbits_pads_right : packbits [x01; x01; x01] = [xe0].
Proof. reflexivity. Qed.

Example from_bytes_big_empty : from_bytes_big [] = 0.
Proof. reflexivity. Qed.

Example to_bytes_big_overflow : to_bytes_big (2 ^ 32) 4 = None.
Proof. reflexivity. Qed.

(** ** Key derivation: sizes, and what the key depends on *)

Lemma sha256_length (msg : bytes) : length (Sha256.sha256 msg) = 32%nat.
Proof. unfold Sha256.sha256, Sha256.digest. reflexivity. Qed.

Lemma hmac_block_length (k0 msg : bytes) : length (Hmac.hmac_block k0 msg) = 32%nat.
Proof. apply sha256_length. Qed.

Lemma pbkdf2_F_length (k0 salt : bytes) (c : N) (i : Z) :
  length (Pbkdf2.F k0 salt c i) = 32%nat.
Proof.
  unfold Pbkdf2.F.
  apply (N.iter_invariant (c - 1) _ (Pbkdf2.step k0)
           (fun st => length (snd st) = 32%nat)).
  - intros [u t] Ht. cbn [Pbkdf2.step fst snd] in *.
    rewrite length_zip_with, Ht, hmac_block_length. reflexivity.
  - apply hmac_block_length.
Qed.

(** The iterations are never run inside a proof. *)
#[global] Opaque Pbkdf2.F.

Lemma pbkdf2_one_block (password salt : bytes) (c : N) :
  Pbkdf2.pbkdf2_hmac_sha256 password salt c 32
  = Pbkdf2.F (Hmac.key_block password) salt c 1.
Proof.
  unfold Pbkdf2.pbkdf2_hmac_sha256.
  change ((32 + 31) / 32)%nat with 1%nat. cbn [seq flat_map].
  rewrite app_nil_r. apply take_ge. rewrite pbkdf2_F_length. lia.
Qed.

Lemma pbkdf2_length (password salt : bytes) (c : N) :
  length (Pbkdf2.pbkdf2_hmac_sha256 password salt c 32) = 32%nat.
Proof. rewrite pbkdf2_one_block. apply pbkdf2_F_length. Qed.

Lemma urlsafe_b64encode_32 (raw : bytes) :
  length raw = 32%nat -> length (Base64.urlsafe_b64encode raw) = 44%nat.
Proof.
  intros Hlen.
  do 32 (destruct raw as [|? raw]; [discriminate Hlen|]).
  destruct raw; [reflexivity|discriminate Hlen].
Qed.

(** ** Running the helpers *)

Lemma derive_key_run (password : str) (salt : bytes) (w : world) :
  derive_key password salt w = (key_of password salt, w).
Proof.
  unfold derive_key, key_of, bind, or_raise.
  destruct (utf8_encode password); reflexivity.
Qed.

Lemma key_of_fernet_key password salt key :
  key_of password salt = inr key -> fernet_key key.
Proof.
  unfold key_of. destruct (utf8_encode password); [|discriminate].
  intros E%(inj inr). subst key.
  eexists. split; [|reflexivity]. apply pbkdf2_length.
Qed.

Lemma key_of_length password salt key :
  key_of password salt = inr key -> length key = 44%nat.
Proof.
  intros (raw & Hraw & ->)%key_of_fernet_key. now apply urlsafe_b64encode_32.
Qed.

Lemma entropy_at_length w k n : length (entropy_at w k n) = n.
Proof. unfold entropy_at. now rewrite length_map, length_seq. Qed.

Section Running.
Context `{Fernet}.

(** [encrypt_message], case by case. *)
Lemma encrypt_message_run (message password : str) (w : world) :
  encrypt_message message password w =
  let salt := entropy_at w (cursor w) 16 in
  match key_of password salt with
  | inl e => (inl e, drawn 16 w)
  | inr key =>
      match utf8_encode message with
      | None => (inl UnicodeEncodeError, drawn 16 w)
      | Some data =>
          match encrypt_from_parts key data (clock w)
                  (entropy_at w (cursor w + 16) 16) with
          | inl e => (inl e, drawn 32 w)
          | inr token => (inr (salt ++ token), drawn 32 w)
          end
      end
  end.
Proof.
  unfold encrypt_message, bind, os_urandom at 1. rewrite derive_key_run.
  fold (entropy_at w (cursor w) 16). fold (drawn 16 w). cbn zeta.
  destruct (key_of password _) as [e|key]; [reflexivity|].
  unfold or_raise.
  destruct (utf8_encode message) as [data|]; [|reflexivity].
  unfold ret at 1, fernet_encrypt, bind, time_now, os_urandom, lift, drawn.
  cbn [heap entropy cursor clock].
  fold (entropy_at w (cursor w + 16) 16).
  replace (cursor w + 16 + 16)%nat with (cursor w + 32)%nat by lia.
  destruct (encrypt_from_parts _ _ _ _); reflexivity.
Qed.

End Running.

Section Framing.
Context `{Fernet}.

Lemma payload_bits_of_state (message password : str) (w w1 : world) r :
  payload_bits_of message password w = (r, w1) ->
  exists n, w1 = drawn n w.
Proof.
  unfold payload_bits_of, bind. rewrite encrypt_message_run. cbn zeta.
  destruct (key_of password _) as [e|key].
  { intros [= <- <-]. eauto. }
  destruct (utf8_encode message) as [data|].
  2: { intros [= <- <-]. eauto. }
  destruct (encrypt_from_parts _ _ _ _) as [e|token].
  { intros [= <- <-]. eauto. }
  unfold or_raise. destruct (to_bytes_big _ _); intros [= <- <-]; eauto.
Qed.

(** A framed bitstream exists exactly when the password and the message are
    encodable, the library seals the message, and the payload length fits
    the four bytes of the header. *)
Lemma payload_bits_of_Some (message password : str) (w w1 : world) (bits : bytes) :
  payload_bits_of message password w = (inr bits, w1) <->
  exists key data token,
    let salt := entropy_at w (cursor w) 16 in
    key_of password salt = inr key /\
    utf8_encode message = Some data /\
    encrypt_from_parts key data (clock w) (entropy_at w (cursor w + 16) 16)
      = inr token /\
    Z.of_nat (length (MAGIC_HEADER ++ salt ++ token)) < 2 ^ 32 /\
    bits = unpackbits (framed salt token) /\
    w1 = drawn 32 w.
Proof.
  unfold payload_bits_of, bind. rewrite encrypt_message_run. cbn zeta.
  set (salt := entropy_at w (cursor w) 16).
  set (iv := entropy_at w (cursor w + 16) 16).
  split.
  - destruct (key_of password salt) as [e|key]; [discriminate|].
    destruct (utf8_encode message) as [data|]; [|discriminate].
    destruct (encrypt_from_parts key data (clock w) iv) as [e|token] eqn:Etok;
      [discriminate|].
    unfold or_raise.
    destruct (to_bytes_big _ 4) as [hdr|] eqn:Ehdr; [|discriminate].
    intros [= <- <-]. exists key, data, token.
    apply to_bytes_big_Some in Ehdr as [Hr ->].
    change (256 ^ Z.of_nat 4) with (2 ^ 32) in Hr.
    repeat split; auto; lia.
  - intros (key & data & token & -> & -> & -> & Hlen & -> & ->).
    unfold or_raise.
    destruct (to_bytes_big _ 4) as [hdr|] eqn:Ehdr.
    + apply to_bytes_big_Some in Ehdr as [Hr ->]. reflexivity.
    + exfalso. 
      assert (to_bytes_big (Z.of_nat (length (MAGIC_HEADER ++ salt ++ token))) 4
              = Some (be_digits 4 (Z.of_nat (length (MAGIC_HEADER ++ salt ++ token))))) as E.
      { apply to_bytes_big_Some. change (256 ^ Z.of_nat 4) with (2 ^ 32). split; [lia|reflexivity]. }
      congruence.
Qed.

(** [encode] is its three stages in sequence: normalization and the size
    guard, framing, embedding. *)
Lemma encode_stages (image : ndarray) (message password : str) (w : world) :
  encode image message password w =
  match ensure_rgb_uint8 image w with
  | (inl e, w0) => (inl e, w0)
  | (inr image', w0) =>
      if (size image' <? 64)%nat then (inl too_small_error, w0)
      else
        match payload_bits_of message password w0 with
        | (inl e, w1) => (inl e, w1)
        | (inr bits, w1) =>
            if (size image' <? length bits)%nat
            then (inl (too_large_error (length bits) (size image')), w1)
            else embed_bits image' bits w1
        end
  end.
Proof.
  unfold encode, payload_bits_of, embed_bits, bind.
  destruct (ensure_rgb_uint8 image w) as [[e|image'] w0]; [reflexivity|].
  destruct (size image' <? 64)%nat; [reflexivity|].
  destruct (encrypt_message message password w0) as [[e|ep] w1]; [reflexivity|].
  destruct (or_raise OverflowError _ w1) as [[e|hdr] w2]; [reflexivity|].
  cbn zeta. unfold ret at 2. cbn iota.
  destruct (size image' <? _)%nat; reflexivity.
Qed.

End Framing.

(** ** Arrays and buffers *)

Lemma values_length (w : world) (a : ndarray) :
  valid w a -> length (values w a) = size a.
Proof.
  intros (data & Hd & Hlen). unfold values.
  rewrite (lookup_total_correct _ _ _ Hd).
  rewrite length_take, length_drop. lia.
Qed.

Lemma zip_with_map_l {A B C D} (f : B -> C -> D) (g : A -> B) (l : list A) (k : list C) :
  zip_with f (map g l) k = zip_with (fun x y => f (g x) y) l k.
Proof.
  revert k. induction l as [|x l IH]; intros [|y k]; cbn; try reflexivity.
  now rewrite IH.
Qed.

Lemma embedded_length (bits samples : bytes) :
  (length bits <= length samples)%nat ->
  length (embedded bits samples) = length samples.
Proof.
  intros Hle. unfold embedded.
  rewrite length_app, length_zip_with, length_take, length_drop. lia.
Qed.

Lemma size_flat (dt : dtype) (n : nat) (l : positive) (o : nat) :
  size (NDArray dt [n] l o) = n.
Proof. unfold size, product. cbn. lia. Qed.

(** An in-place operation on a view that starts its buffer. *)
Lemma update_prefix (f : bytes -> bytes) dt n l (d : bytes) (w : world) :
  heap w !! l = Some d ->
  update f (NDArray dt [n] l 0) w =
  (inr tt, set_heap (<[l := f (take n d) ++ drop n d]> (heap w)) w).
Proof.
  intros Hd. unfold update, values. rewrite size_flat. cbn [buf off].
  rewrite (lookup_total_correct _ _ _ Hd). reflexivity.
Qed.

Lemma slice_prefix dt size_a l n :
  (n <= size_a)%nat ->
  slice (NDArray dt [size_a] l 0) 0 n = NDArray dt [n] l 0.
Proof.
  intros Hn. unfold slice. rewrite size_flat. cbn [adtype buf off].
  f_equal. f_equal. lia.
Qed.

Lemma set_heap_heap h w : heap (set_heap h w) = h.
Proof. reflexivity. Qed.

Lemma set_heap_set_heap h h' w : set_heap h (set_heap h' w) = set_heap h w.
Proof. reflexivity. Qed.

Lemma embed_bits_run (image : ndarray) (bits : bytes) (w : world) :
  valid w image ->
  (length bits <= size image)%nat ->
  let l := fresh (dom (heap w)) in
  embed_bits image bits w =
  (inr (NDArray (adtype image) (shape image) l 0),
   set_heap (<[l := embedded bits (values w image)]> (heap w)) w).
Proof.
  intros Hv Hle l.
  pose proof (values_length w image Hv) as Hxs.
  unfold embed_bits, bind, flatten, new_array. fold l.
  set (xs := values w image) in *.
  rewrite slice_prefix by exact Hle.
  unfold iand_scalar.
  rewrite (update_prefix _ _ _ _ xs) by (rewrite set_heap_heap; apply lookup_insert_eq).
  rewrite set_heap_heap, set_heap_set_heap, insert_insert_eq.
  unfold ior_array. rewrite size_flat, Nat.eqb_refl.
  erewrite update_prefix by (rewrite set_heap_heap; apply lookup_insert_eq).
  rewrite set_heap_heap, set_heap_set_heap, insert_insert_eq.
  unfold reshape. rewrite size_flat. fold (size image). rewrite Nat.eqb_refl.
  unfold ret. cbn [adtype buf off]. do 3 f_equal.
  unfold embedded.
  rewrite take_app_le by (rewrite length_map, length_take; lia).
  rewrite take_ge by (rewrite length_map, length_take; lia).
  rewrite zip_with_map_l.
  rewrite drop_app_ge by (rewrite length_map, length_take; lia).
  rewrite length_map, length_take.
  replace (length bits - length bits `min` length xs)%nat with 0%nat by lia.
  reflexivity.
Qed.

Section Decoding.
Context `{Fernet}.

Lemma decrypt_message_run (data : bytes) (password : str) (w : world) :
  decrypt_message data password w = (inr (opened data password), w).
Proof.
  unfold decrypt_message, try_except, opened.
  destruct (length data <? 16)%nat; [reflexivity|].
  unfold bind. rewrite derive_key_run.
  destruct (key_of password _) as [e|key]; [reflexivity|].
  unfold lift. destruct (decrypt key _) as [e|plain]; [reflexivity|].
  unfold or_raise. destruct (utf8_decode plain); reflexivity.
Qed.

Lemma flatten_run (a : ndarray) (w : world) :
  flatten a w =
  (inr (NDArray (adtype a) [size a] (fresh (dom (heap w))) 0),
   allocated (values w a) w).
Proof. reflexivity. Qed.

Lemma allocated_lookup (data : bytes) (w : world) :
  heap (allocated data w) !! fresh (dom (heap w)) = Some data.
Proof. unfold allocated. rewrite set_heap_heap. apply lookup_insert_eq. Qed.

Lemma values_flat dt n l (d : bytes) (w : world) :
  heap w !! l = Some d -> values w (NDArray dt [n] l 0) = take n d.
Proof.
  intros Hd. unfold values. rewrite size_flat. cbn [buf off].
  now rewrite (lookup_total_correct _ _ _ Hd).
Qed.

Lemma values_slice dt n l (d : bytes) (w : world) (i j : nat) :
  heap w !! l = Some d ->
  values w (slice (NDArray dt [n] l 0) i j)
  = take (Nat.min j n - Nat.min i n) (drop (Nat.min i n) d).
Proof.
  intros Hd. unfold values, slice. rewrite !size_flat. cbn [buf off shape adtype].
  now rewrite (lookup_total_correct _ _ _ Hd).
Qed.

Lemma take_min_length {A} (k : nat) (l : list A) :
  take (Nat.min k (length l)) l = take k l.
Proof.
  destruct (Nat.le_ge_cases k (length l)).
  - now rewrite Nat.min_l.
  - rewrite Nat.min_r by lia. now rewrite !take_ge by lia.
Qed.

(** [decode_image] after normalization, as a function of the samples. *)
Lemma decode_image_run (image image' : ndarray) (password : str) (w w0 : world) :
  ensure_rgb_uint8 image w = (inr image', w0) ->
  length (values w0 image') = size image' ->
  decode_image image password w =
  (inr (decoded (values w0 image') (size image') password),
   allocated (values w0 image') w0).
Proof.
  intros Hens Hlen. unfold decode_image, bind. rewrite Hens, flatten_run.
  set (xs := values w0 image') in *.
  set (w1 := allocated xs w0).
  pose proof (allocated_lookup xs w0) as Hl. fold w1 in Hl.
  unfold and_scalar at 1.
  rewrite (values_slice _ _ _ xs) by exact Hl.
  rewrite size_flat, Nat.min_0_l, Nat.sub_0_r. change (drop 0 xs) with xs.
  rewrite <- Hlen, take_min_length.
  fold (lsbs (take 32 xs)). fold (header_of xs).
  unfold decoded. cbn zeta.
  destruct (Z.leb_spec (header_of xs) 0) as [Hpos|Hpos]; [reflexivity|].
  destruct (Z.gtb_spec (header_of xs) ((Z.of_nat (length xs) - 32) / 8))
    as [Hmax|Hmax]; [reflexivity|].
  destruct (Z.gtb_spec (32 + header_of xs * 8) (Z.of_nat (length xs)))
    as [Hend|Hend]; [reflexivity|].
  unfold and_scalar.
  rewrite (values_slice _ _ _ xs) by exact Hl.
  rewrite !Nat.min_l by lia.
  fold (lsbs (take (Z.to_nat (32 + header_of xs * 8) - 32) (drop 32 xs))).
  fold (payload_of xs (header_of xs)).
  destruct (_ || _); [reflexivity|].
  apply decrypt_message_run.
Qed.

End Decoding.

(** ** Normalization *)

Lemma fresh_unallocated (w : world) :
  heap w !! fresh (dom (heap w)) = None.
Proof. apply not_elem_of_dom, is_fresh. Qed.

Lemma allocated_subseteq (data : bytes) (w : world) :
  heap w ⊆ heap (allocated data w).
Proof.
  unfold allocated. rewrite set_heap_heap.
  apply insert_subseteq, fresh_unallocated.
Qed.

Lemma new_array_run dt shp (data : bytes) (w : world) :
  new_array dt shp data w =
  (inr (NDArray dt shp (fresh (dom (heap w))) 0), allocated data w).
Proof. reflexivity. Qed.

Lemma new_array_valid dt shp (data : bytes) (w : world) :
  length data = product shp ->
  valid (allocated data w) (NDArray dt shp (fresh (dom (heap w))) 0).
Proof.
  intros Hlen. exists data. split; [apply allocated_lookup|].
  cbn [off]. unfold size. cbn [shape]. lia.
Qed.

Lemma product_app (s1 s2 : list nat) :
  product (s1 ++ s2) = (product s1 * product s2)%nat.
Proof.
  unfold product. induction s1 as [|n s1 IH]; cbn [app fold_right].
  - lia.
  - rewrite IH. lia.
Qed.

Lemma gray2bgr_length (data : bytes) : length (gray2bgr data) = (length data * 3)%nat.
Proof.
  unfold gray2bgr. induction data as [|g data IH]; [reflexivity|].
  cbn [flat_map app length]. rewrite IH. lia.
Qed.

Lemma bgra2bgr_length (n : nat) (data : bytes) :
  length data = (n * 4)%nat -> length (bgra2bgr data) = (n * 3)%nat.
Proof.
  revert data. induction n as [|n IH]; intros data Hlen.
  - destruct data; [reflexivity|discriminate].
  - destruct data as [|b [|g [|r [|a rest]]]]; try discriminate.
    cbn [bgra2bgr length]. rewrite (IH rest); [lia|].
    cbn [length] in Hlen. lia.
Qed.

Lemma ensure_three_channel (a : ndarray) (w : world) :
  three_channel a -> ensure_rgb_uint8 a w = (inr a, w).
Proof.
  intros [Hdt (h & wd & Hshape)]. unfold ensure_rgb_uint8, ndim.
  rewrite Hdt, Hshape. cbn. unfold bind, ret. now rewrite Hshape.
Qed.

(** What normalization returns is a valid three-channel [uint8] array, and
    no buffer that existed before is changed. *)
Lemma ensure_rgb_uint8_spec (image : ndarray) (w w0 : world) r :
  ensure_rgb_uint8 image w = (r, w0) ->
  heap w ⊆ heap w0 /\
  entropy w0 = entropy w /\ cursor w0 = cursor w /\ clock w0 = clock w /\
  forall image', r = inr image' ->
    three_channel image' /\ (valid w image -> valid w0 image').
Proof.
  unfold ensure_rgb_uint8.
  destruct (bool_decide (adtype image = uint8)) eqn:Edt; cbn [negb].
  2: { intros [= <- <-]. repeat split; try reflexivity; discriminate. }
  apply bool_decide_eq_true in Edt.
  unfold bind.
  assert (forall img (w' : world) r',
    (if negb (ndim img =? 3)%nat || negb (nth 2 (shape img) 0 =? 3)%nat
     then raise (ValueError
                  (String.append "Image must have 3 channels (RGB/BGR). Found shape: "
                                 (show_shape (shape img))))
     else ret img) w' = (r', w0) ->
    adtype img = uint8 ->
    w0 = w' /\ forall image', r' = inr image' -> image' = img /\ three_channel img) as Hfinal.
  { intros img w' r'. unfold ndim, three_channel.
    destruct (shape img) as [|a [|b [|c [|d rest]]]] eqn:Es; cbn;
      try (intros [= <- <-]; split; [reflexivity|discriminate]).
    destruct (Nat.eqb_spec c 3) as [->|Hc]; cbn;
      intros [= <- <-] Hd; (split; [reflexivity|]); [|discriminate].
    intros image' [= <-]. split; [reflexivity|]. split; [exact Hd|]. eauto. }
  destruct (ndim image =? 2)%nat eqn:E2.
  { unfold cvtColor. destruct (size image =? 0)%nat eqn:E0.
    { intros [= <- <-]. repeat split; try reflexivity; discriminate. }
    rewrite new_array_run. intros Hr.
    apply Hfinal in Hr as [-> Hr]; [|exact Edt].
    split; [apply allocated_subseteq|]. do 3 (split; [reflexivity|]).
    intros image' Himg. destruct (Hr _ Himg) as [-> Htc]. split; [exact Htc|].
    intros Hv. apply new_array_valid.
    rewrite gray2bgr_length, (values_length _ _ Hv), product_app.
    reflexivity. }
  destruct ((ndim image =? 3)%nat && (nth 2 (shape image) 0 =? 4)%nat) eqn:E4.
  { unfold cvtColor. destruct (size image =? 0)%nat eqn:E0.
    { intros [= <- <-]. repeat split; try reflexivity; discriminate. }
    rewrite new_array_run. intros Hr.
    apply Hfinal in Hr as [-> Hr]; [|exact Edt].
    split; [apply allocated_subseteq|]. do 3 (split; [reflexivity|]).
    intros image' Himg. destruct (Hr _ Himg) as [-> Htc]. split; [exact Htc|].
    intros Hv.
    apply andb_prop in E4 as [E3 E4]. unfold ndim in E3.
    apply Nat.eqb_eq in E3, E4.
    pose proof (values_length _ _ Hv) as Hlen. unfold size in Hlen.
    destruct (shape image) as [|a [|b [|c [|d rest]]]] eqn:Es; try discriminate.
    cbn in E4. subst c.
    apply new_array_valid. cbn [take app].
    rewrite (bgra2bgr_length (a * b)).
    + unfold product. cbn. lia.
    + rewrite Hlen. unfold product. cbn. lia. }
  intros Hr. apply Hfinal in Hr as [-> Hr]; [|exact Edt].
  split; [reflexivity|]. do 3 (split; [reflexivity|]).
  intros image' Himg. destruct (Hr _ Himg) as [-> Htc]. split; [exact Htc|].
  auto.
Qed.

(** ** Running [encode] *)

Lemma framed_length (salt token : bytes) :
  length (framed salt token) = (8 + length salt + length token)%nat.
Proof.
  unfold framed. rewrite !length_app, be_digits_length.
  change (length MAGIC_HEADER) with 4%nat. lia.
Qed.

Lemma valid_drawn (n : nat) (w : world) (a : ndarray) :
  valid w a -> valid (drawn n w) a.
Proof. intros Hv. exact Hv. Qed.

Lemma values_drawn (n : nat) (w : world) (a : ndarray) :
  values (drawn n w) a = values w a.
Proof. reflexivity. Qed.

Section Encoding.
Context `{Fernet}.

(** A framed bitstream has at least 192 bits: header, signature and salt. *)
Lemma payload_bits_of_length (message password : str) (w w1 : world) (bits : bytes) :
  payload_bits_of message password w = (inr bits, w1) ->
  (192 <= length bits)%nat.
Proof.
  intros (key & data & token & _ & _ & _ & _ & -> & _)%payload_bits_of_Some.
  rewrite unpackbits_length, framed_length, entropy_at_length. lia.
Qed.

(** The successful run of [encode], in full. *)
Lemma encode_run (image image' : ndarray) (message password : str)
      (w w0 w1 : world) (bits : bytes) :
  valid w image ->
  ensure_rgb_uint8 image w = (inr image', w0) ->
  payload_bits_of message password w0 = (inr bits, w1) ->
  (length bits <= size image')%nat ->
  let l := fresh (dom (heap w0)) in
  encode image message password w =
  (inr (NDArray uint8 (shape image') l 0),
   set_heap (<[l := embedded bits (values w0 image')]> (heap w0)) w1).
Proof.
  intros Hv Hens Hbits Hcap l.
  rewrite encode_stages, Hens.
  pose proof (payload_bits_of_length _ _ _ _ _ Hbits) as H192.
  destruct (Nat.ltb_spec (size image') 64) as [Hs|_]; [lia|].
  rewrite Hbits.
  destruct (Nat.ltb_spec (size image') (length bits)) as [Hs|_]; [lia|].
  destruct (payload_bits_of_state _ _ _ _ _ Hbits) as [n ->].
  destruct (ensure_rgb_uint8_spec _ _ _ _ Hens) as (_ & _ & _ & _ & Himg).
  destruct (Himg _ eq_refl) as [[Hdt _] Hv0].
  rewrite embed_bits_run; [|apply valid_drawn; auto|exact Hcap].
  rewrite Hdt. reflexivity.
Qed.

(** Whatever the outcome of [encode], every buffer that existed before the
    call holds what it held. *)
Lemma encode_frame (image : ndarray) (message password : str) (w w' : world) r :
  valid w image ->
  encode image message password w = (r, w') ->
  heap w ⊆ heap w'.
Proof.
  intros Hv. rewrite encode_stages.
  destruct (ensure_rgb_uint8 image w) as [[e|image'] w0] eqn:Hens;
    destruct (ensure_rgb_uint8_spec _ _ _ _ Hens) as (Hsub & _ & _ & _ & Himg).
  { intros [= <- <-]. exact Hsub. }
  destruct (Himg _ eq_refl) as [_ Hv0]. specialize (Hv0 Hv).
  destruct (size image' <? 64)%nat.
  { intros [= <- <-]. exact Hsub. }
  destruct (payload_bits_of message password w0) as [[e|bits] w1] eqn:Hbits;
    destruct (payload_bits_of_state _ _ _ _ _ Hbits) as [n ->].
  { intros [= <- <-]. exact Hsub. }
  destruct (Nat.ltb_spec (size image') (length bits)) as [Hs|Hs].
  { intros [= <- <-]. exact Hsub. }
  rewrite embed_bits_run; [|apply valid_drawn; auto|exact Hs].
  intros [= <- <-]. rewrite set_heap_heap.
  etrans; [exact Hsub|]. apply insert_subseteq.
  apply fresh_unallocated.
Qed.

End Encoding.

(** ** Reading the embedded bits back *)

Lemma lsbs_zip_set_lsb (xs bits : bytes) :
  Forall is_bit bits -> length xs = length bits ->
  lsbs (zip_with set_lsb xs bits) = bits.
Proof.
  intros Hbits. revert xs.
  induction Hbits as [|b bits Hb _ IH]; intros [|x xs] Hlen; try discriminate.
  - reflexivity.
  - cbn [zip_with lsbs map]. rewrite set_lsb_lsb by exact Hb.
    f_equal. apply IH. now injection Hlen.
Qed.

Lemma lsbs_embedded (bits xs : bytes) :
  Forall is_bit bits -> (length bits <= length xs)%nat ->
  lsbs (embedded bits xs) = bits ++ lsbs (drop (length bits) xs).
Proof.
  intros Hbits Hle. unfold embedded, lsbs at 1. rewrite map_app.
  f_equal. apply lsbs_zip_set_lsb; [exact Hbits|].
  rewrite length_take. lia.
Qed.

Lemma lsbs_take (n : nat) (xs : bytes) : lsbs (take n xs) = take n (lsbs xs).
Proof. unfold lsbs. symmetry. apply firstn_map. Qed.

Lemma lsbs_drop (n : nat) (xs : bytes) : lsbs (drop n xs) = drop n (lsbs xs).
Proof. unfold lsbs. symmetry. apply skipn_map. Qed.

(** The header and the payload that [decode_image] reads from samples that
    carry a framed bitstream are those that were framed. *)
Lemma header_of_embedded (salt token xs : bytes) :
  let content := MAGIC_HEADER ++ salt ++ token in
  Z.of_nat (length content) < 2 ^ 32 ->
  (length (unpackbits (framed salt token)) <= length xs)%nat ->
  header_of (embedded (unpackbits (framed salt token)) xs)
  = Z.of_nat (length content).
Proof.
  intros content Hlen Hcap. unfold header_of.
  rewrite lsbs_take, lsbs_embedded by (auto using unpackbits_bits).
  unfold framed. fold content. rewrite unpackbits_app, <- app_assoc.
  rewrite take_app_length' by (rewrite unpackbits_length, be_digits_length; reflexivity).
  rewrite packbits_unpackbits, from_bytes_be_digits by lia.
  apply Z.mod_small. change (256 ^ Z.of_nat 4) with (2 ^ 32). lia.
Qed.

Lemma payload_of_embedded (salt token xs : bytes) :
  let content := MAGIC_HEADER ++ salt ++ token in
  (length (unpackbits (framed salt token)) <= length xs)%nat ->
  payload_of (embedded (unpackbits (framed salt token)) xs)
             (Z.of_nat (length content))
  = content.
Proof.
  intros content Hcap. unfold payload_of.
  rewrite lsbs_take, lsbs_drop, lsbs_embedded by (auto using unpackbits_bits).
  unfold framed. fold content. rewrite unpackbits_app, <- app_assoc.
  rewrite drop_app_length' by (rewrite unpackbits_length, be_digits_length; reflexivity).
  rewrite take_app_length' by (rewrite unpackbits_length; lia).
  apply packbits_unpackbits.
Qed.

Section Opening.
Context `{Fernet}.

Lemma decoded_embedded (salt token xs : bytes) (password : str) :
  length salt = 16%nat ->
  Z.of_nat (length (MAGIC_HEADER ++ salt ++ token)) < 2 ^ 32 ->
  (length (unpackbits (framed salt token)) <= length xs)%nat ->
  decoded (embedded (unpackbits (framed salt token)) xs) (length xs) password
  = match key_of password salt with
    | inl _ => decrypt_error
    | inr key =>
        match decrypt key token with
        | inl _ => decrypt_error
        | inr plain =>
            match utf8_decode plain with
            | None => decrypt_error
            | Some message => message
            end
        end
    end.
Proof.
  intros Hsalt Hlen Hcap. unfold decoded.
  rewrite header_of_embedded by assumption. cbn zeta.
  rewrite payload_of_embedded by assumption.
  set (content := MAGIC_HEADER ++ salt ++ token) in *.
  assert (length content = (20 + length token)%nat) as Hc.
  { unfold content. rewrite !length_app, Hsalt. reflexivity. }
  rewrite unpackbits_length, framed_length, Hsalt in Hcap.
  destruct (Z.leb_spec (Z.of_nat (length content)) 0); [lia|].
  destruct (Z.gtb_spec (Z.of_nat (length content)) ((Z.of_nat (length xs) - 32) / 8)).
  { exfalso. assert (Z.of_nat (length content) * 8 <= Z.of_nat (length xs) - 32) by lia.
    pose proof (Z.div_le_lower_bound (Z.of_nat (length xs) - 32) 8 (Z.of_nat (length content))).
    lia. }
  destruct (Z.gtb_spec (32 + Z.of_nat (length content) * 8) (Z.of_nat (length xs))); [lia|].
  destruct (Nat.ltb_spec (length content) 4); [lia|].
  change (take 4 content) with MAGIC_HEADER.
  rewrite bool_decide_eq_true_2 by reflexivity. cbn [negb orb].
  change (drop 4 content) with (salt ++ token).
  unfold opened. rewrite length_app, Hsalt.
  destruct (Nat.ltb_spec (16 + length token) 16); [lia|].
  rewrite take_app_length' by (now rewrite Hsalt).
  rewrite drop_app_length' by (now rewrite Hsalt).
  reflexivity.
Qed.

End Opening.

(** ** Decoding what [encode] produced *)

Section RoundTrip.
Context `{Fernet}.

(** What [decode_image] returns, under any password, on the image a
    successful [encode] returned. *)
Lemma decode_encoded (image : ndarray) (salt token : bytes) (password : str)
      (w w1 : world) :
  valid w image -> three_channel image ->
  length salt = 16%nat ->
  Z.of_nat (length (MAGIC_HEADER ++ salt ++ token)) < 2 ^ 32 ->
  (length (unpackbits (framed salt token)) <= size image)%nat ->
  let l := fresh (dom (heap w)) in
  let samples := embedded (unpackbits (framed salt token)) (values w image) in
  let w2 := set_heap (<[l := samples]> (heap w)) w1 in
  decode_image (NDArray uint8 (shape image) l 0) password w2 =
  (inr match key_of password salt with
       | inl _ => decrypt_error
       | inr key =>
           match decrypt key token with
           | inl _ => decrypt_error
           | inr plain =>
               match utf8_decode plain with
               | None => decrypt_error
               | Some message => message
               end
           end
       end,
   allocated samples w2).
Proof.
  intros Hv Htc Hsalt Hlen Hcap l samples w2.
  pose proof (values_length _ _ Hv) as Hxs.
  assert (length samples = size image) as Hsamples.
  { unfold samples. rewrite embedded_length; lia. }
  set (encoded := NDArray uint8 (shape image) l 0).
  assert (values w2 encoded = samples) as Hvals.
  { unfold values, encoded, w2. cbn [buf off]. rewrite set_heap_heap.
    rewrite lookup_total_insert_eq. change (drop 0 samples) with samples.
    apply take_ge. unfold size at 1. cbn [shape]. fold (size image). lia. }
  assert (three_channel encoded) as Htc'.
  { destruct Htc as [_ Hshape]. split; [reflexivity|exact Hshape]. }
  rewrite (decode_image_run encoded encoded password w2 w2);
    [|apply ensure_three_channel; exact Htc'|rewrite Hvals; exact Hsamples].
  rewrite Hvals. f_equal. f_equal.
  change (size encoded) with (size image). rewrite <- Hxs.
  apply decoded_embedded; auto. lia.
Qed.

End RoundTrip.

Section Outcomes.
Context `{Fernet}.

(** A successful [encode] on a normalized image went through framing and
    embedding. *)
Lemma encode_Some (image encoded : ndarray) (message password : str) (w w' : world) :
  valid w image -> three_channel image ->
  encode image message password w = (inr encoded, w') ->
  exists bits w1,
    payload_bits_of message password w = (inr bits, w1) /\
    (length bits <= size image)%nat /\
    encoded = NDArray uint8 (shape image) (fresh (dom (heap w))) 0 /\
    w' = set_heap (<[fresh (dom (heap w)) := embedded bits (values w image)]> (heap w)) w1.
Proof.
  intros Hv Htc. rewrite encode_stages, (ensure_three_channel _ _ Htc).
  destruct (size image <? 64)%nat; [discriminate|].
  destruct (payload_bits_of message password w) as [[e|bits] w1] eqn:Hbits;
    [discriminate|].
  destruct (Nat.ltb_spec (size image) (length bits)) as [Hs|Hs]; [discriminate|].
  destruct (payload_bits_of_state _ _ _ _ _ Hbits) as [n ->].
  rewrite embed_bits_run; [|apply valid_drawn; exact Hv|exact Hs].
  destruct Htc as [-> _]. intros [= <- <-]. exists bits, (drawn n w).
  repeat split; auto.
Qed.

(** Decoding under a password that derives the key of the encoding
    password returns the message. *)
Lemma decode_same_key (image : ndarray) (message p1 p2 : str) (w w1 : world)
      (bits : bytes) :
  fernet_opens_sealed ->
  valid w image -> three_channel image ->
  payload_bits_of message p1 w = (inr bits, w1) ->
  (length bits <= size image)%nat ->
  key_of p2 (entropy_at w (cursor w) 16) = key_of p1 (entropy_at w (cursor w) 16) ->
  exists encoded w',
    encode image message p1 w = (inr encoded, w') /\
    exists w'', decode_image encoded p2 w' = (inr message, w'').
Proof.
  intros Hopen Hv Htc Hbits Hcap Hkey.
  pose proof (encode_run image image message p1 w w w1 bits Hv
                (ensure_three_channel _ _ Htc) Hbits Hcap) as Henc.
  cbn zeta in Henc. rewrite Henc. do 2 eexists. split; [reflexivity|].
  apply payload_bits_of_Some in Hbits
    as (key & data & token & Hk & Hdata & Htok & Hlen & -> & ->).
  cbn zeta in Hk, Hlen.
  rewrite decode_encoded;
    [|exact Hv|exact Htc|apply entropy_at_length|exact Hlen|exact Hcap].
  rewrite Hkey, Hk.
  rewrite (Hopen _ _ _ _ _ (key_of_fernet_key _ _ _ Hk) Htok).
  rewrite (utf8_decode_encode _ _ Hdata). eauto.
Qed.

End Outcomes.

(** ** Passwords that derive the same key *)

(** HMAC fills a short key up with zero bytes, so a trailing zero byte of
    the key changes nothing. *)
Lemma key_block_trailing_nul (key : bytes) :
  (length key < 64)%nat ->
  Hmac.key_block (key ++ [x00]) = Hmac.key_block key.
Proof.
  intros Hlen. unfold Hmac.key_block.
  rewrite !decide_False by (rewrite ?length_app; cbn [length]; lia).
  rewrite length_app. cbn [length].
  replace (64 - length key)%nat with (S (64 - (length key + 1))) by lia.
  cbn [repeat]. now rewrite <- app_assoc.
Qed.

Lemma utf8_encode_app (s1 s2 : str) (b1 b2 : bytes) :
  utf8_encode s1 = Some b1 -> utf8_encode s2 = Some b2 ->
  utf8_encode (s1 ++ s2) = Some (b1 ++ b2).
Proof.
  revert b1. induction s1 as [|c s1 IH]; intros b1.
  - intros E%(inj Some). subst b1. auto.
  - cbn [app utf8_encode]. destruct (encode_cp c) as [bc|]; [|discriminate].
    destruct (utf8_encode s1) as [t1|]; [|discriminate].
    intros E%(inj Some) H2. subst b1. rewrite (IH t1 eq_refl H2).
    now rewrite app_assoc.
Qed.

(** A password and the same password followed by the character U+0000
    derive the same key, for every salt. *)
Lemma key_of_trailing_nul (password : str) (material salt : bytes) :
  utf8_encode password = Some material ->
  (length material < 64)%nat ->
  key_of (password ++ [0]) salt = key_of password salt.
Proof.
  intros Henc Hlen. unfold key_of.
  rewrite (utf8_encode_app password [0] material [x00] Henc eq_refl), Henc.
  unfold Pbkdf2.pbkdf2_hmac_sha256. now rewrite key_block_trailing_nul.
Qed.

(** ** The stand-in library meets the assumptions *)

Lemma tagging_opens_sealed : @fernet_opens_sealed Example.tagging_fernet.
Proof.
  intros key data t iv token (raw & Hraw & ->).
  cbn [encrypt_from_parts decrypt Example.tagging_fernet].
  rewrite (urlsafe_b64encode_32 raw Hraw). cbn [Nat.eqb andb].
  intros E%(inj inr). subst token.
  rewrite take_app_length' by (now rewrite urlsafe_b64encode_32).
  rewrite bool_decide_eq_true_2 by reflexivity.
  now rewrite drop_app_length' by (now rewrite urlsafe_b64encode_32).
Qed.


(** Framing under the stand-in library, without running the iterations. *)
Lemma tagging_payload_bits (message password : str) (data key : bytes) (w : world) :
  let salt := entropy_at w (cursor w) 16 in
  key_of password salt = inr key ->
  utf8_encode message = Some data ->
  Z.of_nat (length data) < 2 ^ 32 - 64 ->
  @payload_bits_of Example.tagging_fernet message password w
  = (inr (unpackbits (framed salt (key ++ data))), drawn 32 w).
Proof.
  intros salt Hkey Hdata Hlen. apply payload_bits_of_Some.
  exists key, data, (key ++ data). cbn zeta. fold salt.
  pose proof (key_of_length _ _ _ Hkey) as Hk.
  repeat split; auto.
  - cbn [encrypt_from_parts Example.tagging_fernet]. now rewrite Hk.
  - rewrite !length_app, Hk. unfold salt. rewrite entropy_at_length.
    change (length MAGIC_HEADER) with 4%nat. lia.
Qed.

Lemma key_of_Some (password : str) (material salt : bytes) :
  utf8_encode password = Some material ->
  exists key, key_of password salt = inr key /\ length key = 44%nat.
Proof.
  intros Henc. unfold key_of. rewrite Henc. eexists. split; [reflexivity|].
  apply urlsafe_b64encode_32, pbkdf2_length.
Qed.

Lemma example_payload_bits (message password : str) (data material : bytes) (w : world) :
  utf8_encode message = Some data ->
  utf8_encode password = Some material ->
  Z.of_nat (length data) < 2 ^ 32 - 64 ->
  @payload_bits_of Example.tagging_fernet message password w
  = (inr (Example.bits_for data material w), drawn 32 w).
Proof.
  intros Hdata Hmat Hlen.
  apply tagging_payload_bits; [|exact Hdata|exact Hlen].
  unfold key_of. now rewrite Hmat.
Qed.

Lemma example_key_length (material salt : bytes) :
  length (Example.key_for material salt) = 44%nat.
Proof.
  unfold Example.key_for. apply urlsafe_b64encode_32. apply pbkdf2_length.
Qed.

Lemma example_bits_length (data material : bytes) (w : world) :
  length (Example.bits_for data material w) = (8 * (68 + length data))%nat.
Proof.
  unfold Example.bits_for. cbn zeta.
  pose proof (example_key_length material (entropy_at w (cursor w) 16)) as Hk.
  revert Hk. generalize (Example.key_for material (entropy_at w (cursor w) 16)).
  intros k Hk.
  rewrite unpackbits_length, framed_length, length_app, entropy_at_length, Hk.
  lia.
Qed.

Lemma example_valid (height width : nat) (data : bytes) :
  length data = (height * width * 3)%nat ->
  valid (Example.world_with data) (Example.image height width).
Proof.
  intros Hlen. exists data. split; [apply lookup_singleton_eq|].
  unfold size, product. cbn. lia.
Qed.

(** * The claims *)

(** C1. Round trip: for every password and every message whose framed
    bitstream (length header, magic signature, salt, token; eight bits a
    byte) exists and is no longer than the capacity height x width x 3 of a
    normalized image, [encode] succeeds and [decode_image] with the same
    password returns exactly the message. *)
Theorem encode_decode_round_trip `{Fernet} (image : ndarray) (height width : nat)
        (message password : str) (w w1 : world) (bits : bytes) :
  fernet_opens_sealed ->
  valid w image ->
  adtype image = uint8 ->
  shape image = [height; width; 3%nat] ->
  payload_bits_of message password w = (inr bits, w1) ->
  (length bits <= height * width * 3)%nat ->
  exists encoded w',
    encode image message password w = (inr encoded, w') /\
    exists w'', decode_image encoded password w' = (inr message, w'').
Proof.
  intros Hopen Hv Hdt Hshape Hbits Hcap.
  apply (decode_same_key image message password password w w1 bits); auto.
  - split; [exact Hdt|eauto].
  - unfold size, product. rewrite Hshape. cbn [fold_right]. lia.
Qed.

Lemma encode_decode_round_trip_witness :
  exists encoded w',
    @encode Example.tagging_fernet (Example.image 16 16) Example.hi Example.secret
            (Example.world_with (Example.white 768)) = (inr encoded, w') /\
    exists w'', @decode_image Example.tagging_fernet encoded Example.secret w'
                = (inr Example.hi, w'').
Proof.
  apply (@encode_decode_round_trip Example.tagging_fernet
           (Example.image 16 16) 16 16 Example.hi Example.secret
           (Example.world_with (Example.white 768))
           (drawn 32 (Example.world_with (Example.white 768)))
           (Example.bits_for (of_string "hi") (of_string "secret")
                             (Example.world_with (Example.white 768)))).
  - exact tagging_opens_sealed.
  - apply example_valid. reflexivity.
  - reflexivity.
  - reflexivity.
  - apply example_payload_bits; [reflexivity|reflexivity|cbn; lia].
  - rewrite example_bits_length. cbn. lia.
Defined.


Lemma example_encode (message password : str) (data material : bytes)
      (height width : nat) (samples : bytes) :
  utf8_encode message = Some data ->
  utf8_encode password = Some material ->
  length samples = (height * width * 3)%nat ->
  (8 * (68 + length data) <= height * width * 3)%nat ->
  Z.of_nat (length data) < 2 ^ 32 - 64 ->
  let w := Example.world_with samples in
  @encode Example.tagging_fernet (Example.image height width) message password w
  = (inr (NDArray uint8 [height; width; 3%nat] (fresh (dom (heap w))) 0),
     set_heap (<[fresh (dom (heap w)) :=
                   embedded (Example.bits_for data material w)
                            (values w (Example.image height width))]> (heap w))
              (drawn 32 w)).
Proof.
  intros Hdata Hmat Hlen Hcap Hsmall w.
  assert (three_channel (Example.image height width)) as Htc.
  { split; [reflexivity|]. exists height, width. reflexivity. }
  apply (encode_run _ (Example.image height width) message password w w).
  - now apply example_valid.
  - now apply ensure_three_channel.
  - now apply example_payload_bits.
  - rewrite example_bits_length. unfold size, product. cbn. lia.
Qed.




(** ** The failures of [decode_image] *)

Section Failures.
Context `{Fernet}.

Lemma opened_fails (data : bytes) (password : str) :
  decryption_fails data password -> opened data password = decrypt_error.
Proof.
  unfold opened.
  intros [Hshort | [[e He] | [(key & e & Hk & He) | (key & plain & Hk & Hp & Hu)]]].
  - destruct (Nat.ltb_spec (length data) 16); [reflexivity|lia].
  - destruct (_ <? _)%nat; [reflexivity|]. now rewrite He.
  - destruct (_ <? _)%nat; [reflexivity|]. now rewrite Hk, He.
  - destruct (_ <? _)%nat; [reflexivity|]. now rewrite Hk, Hp, Hu.
Qed.

Lemma decoded_no_data (samples : bytes) (total : nat) (password : str) :
  header_of samples <= 0 -> decoded samples total password = no_data_error.
Proof.
  intros Hn. unfold decoded. cbn zeta.
  destruct (Z.leb_spec (header_of samples) 0); [reflexivity|lia].
Qed.

Lemma decoded_incomplete (samples : bytes) (total : nat) (password : str) :
  0 < header_of samples ->
  header_of samples > (Z.of_nat total - 32) / 8 ->
  decoded samples total password = incomplete_error.
Proof.
  intros Hpos Hmax. unfold decoded. cbn zeta.
  destruct (Z.leb_spec (header_of samples) 0); [lia|].
  destruct (Z.gtb_spec (header_of samples) ((Z.of_nat total - 32) / 8));
    [reflexivity|lia].
Qed.

Lemma decoded_fits (samples : bytes) (total : nat) (password : str) :
  0 < header_of samples <= (Z.of_nat total - 32) / 8 ->
  decoded samples total password =
  let payload := payload_of samples (header_of samples) in
  if (length payload <? 4)%nat || negb (bool_decide (take 4 payload = MAGIC_HEADER))
  then no_data_error
  else opened (drop 4 payload) password.
Proof.
  intros [Hpos Hmax]. unfold decoded. cbn zeta.
  destruct (Z.leb_spec (header_of samples) 0); [lia|].
  destruct (Z.gtb_spec (header_of samples) ((Z.of_nat total - 32) / 8)); [lia|].
  destruct (Z.gtb_spec (32 + header_of samples * 8) (Z.of_nat total)) as [Hend|_];
    [|reflexivity].
  exfalso.
  pose proof (Z.mul_div_le (Z.of_nat total - 32) 8 ltac:(lia)). lia.
Qed.

End Failures.

(** C2, as amended. Every failure on the decode side is returned, not
    raised, as a result string, and the string tells the failures apart:
    a non-positive length header and a missing or wrong magic signature give
    "Error: No valid steganography data found."; a header above the
    capacity gives "Error: Encoded data incomplete or corrupted."; every
    failure of decryption gives "Error: Incorrect password or corrupted
    data.". *)
Theorem decode_failure_strings `{Fernet} (image image' : ndarray) (password : str)
        (w w0 : world) :
  ensure_rgb_uint8 image w = (inr image', w0) ->
  valid w image ->
  let samples := values w0 image' in
  let n := header_of samples in
  let capacity := (Z.of_nat (size image') - 32) / 8 in
  let payload := payload_of samples n in
  exists result w',
    decode_image image password w = (inr result, w') /\
    (n <= 0 -> result = no_data_error) /\
    (0 < n -> n > capacity -> result = incomplete_error) /\
    (0 < n <= capacity -> take 4 payload <> MAGIC_HEADER ->
     result = no_data_error) /\
    (0 < n <= capacity -> take 4 payload = MAGIC_HEADER ->
     decryption_fails (drop 4 payload) password ->
     result = decrypt_error).
Proof.
  intros Hens Hv samples n capacity payload.
  destruct (ensure_rgb_uint8_spec _ _ _ _ Hens) as (_ & _ & _ & _ & Himg).
  destruct (Himg _ eq_refl) as [_ Hv0]. specialize (Hv0 Hv).
  pose proof (values_length _ _ Hv0) as Hlen.
  rewrite (decode_image_run _ _ _ _ _ Hens Hlen). fold samples.
  do 2 eexists. split; [reflexivity|].
  split; [|split; [|split]].
  - intros Hn. now apply decoded_no_data.
  - intros Hpos Hmax. now apply decoded_incomplete.
  - intros Hfit Hmagic. rewrite decoded_fits by exact Hfit. cbn zeta.
    fold n. fold payload.
    rewrite bool_decide_eq_false_2 by exact Hmagic.
    now rewrite orb_true_r.
  - intros Hfit Hmagic Hfail. rewrite decoded_fits by exact Hfit. cbn zeta.
    fold n. fold payload.
    rewrite bool_decide_eq_true_2 by exact Hmagic.
    assert ((length payload <? 4)%nat = false) as ->.
    { assert (length (take 4 payload) = 4%nat) as E by (now rewrite Hmagic).
      rewrite length_take in E. apply Nat.ltb_ge. lia. }
    cbn [negb orb]. now apply opened_fails.
Qed.

Lemma decode_failure_strings_witness :
  let samples := values (Example.world_with (Example.black 3)) (Example.image 1 1) in
  let n := header_of samples in
  let capacity := (Z.of_nat (size (Example.image 1 1)) - 32) / 8 in
  let payload := payload_of samples n in
  exists result w',
    @decode_image Example.tagging_fernet (Example.image 1 1) Example.secret
      (Example.world_with (Example.black 3)) = (inr result, w') /\
    (n <= 0 -> result = no_data_error) /\
    (0 < n -> n > capacity -> result = incomplete_error) /\
    (0 < n <= capacity -> take 4 payload <> MAGIC_HEADER ->
     result = no_data_error) /\
    (0 < n <= capacity -> take 4 payload = MAGIC_HEADER ->
     @decryption_fails Example.tagging_fernet (drop 4 payload) Example.secret ->
     result = decrypt_error).
Proof.
  apply (@decode_failure_strings Example.tagging_fernet
           (Example.image 1 1) (Example.image 1 1) Example.secret
           (Example.world_with (Example.black 3))
           (Example.world_with (Example.black 3))).
  - apply ensure_three_channel. split; [reflexivity|].
    exists 1%nat, 1%nat. reflexivity.
  - apply example_valid. reflexivity.
Defined.

(** C2, counterexample. Two failures with two different result strings: an
    all-zero image of three samples reads a zero header, an all-ones image
    of three samples reads the header 224, which exceeds its capacity. *)
Lemma decode_failures_differ :
  no_data_error <> incomplete_error /\
  (exists w', @decode_image Example.tagging_fernet (Example.image 1 1) Example.secret
                (Example.world_with (Example.black 3)) = (inr no_data_error, w')) /\
  (exists w', @decode_image Example.tagging_fernet (Example.image 1 1) Example.secret
                (Example.world_with (Example.white 3)) = (inr incomplete_error, w')).
Proof.
  assert (three_channel (Example.image 1 1)) as Htc.
  { split; [reflexivity|]. exists 1%nat, 1%nat. reflexivity. }
  split; [discriminate|]. split.
  - rewrite (decode_image_run _ (Example.image 1 1) _ _ (Example.world_with (Example.black 3)));
      [|now apply ensure_three_channel|reflexivity].
    rewrite decoded_no_data by (vm_compute; discriminate). eauto.
  - rewrite (decode_image_run _ (Example.image 1 1) _ _ (Example.world_with (Example.white 3)));
      [|now apply ensure_three_channel|reflexivity].
    rewrite decoded_incomplete by (vm_compute; reflexivity). eauto.
Qed.

(** C10. [decode_image] is total on what passes normalization: whatever the
    image (fewer than 32 samples included) and the password, it returns a
    string and raises nothing; what decryption raises is caught. *)
Theorem decode_image_total `{Fernet} (image image' : ndarray) (password : str)
        (w w0 : world) :
  ensure_rgb_uint8 image w = (inr image', w0) ->
  exists result w', decode_image image password w = (inr result, w').
Proof.
  intros Hens. unfold decode_image, bind. rewrite Hens, flatten_run.
  unfold and_scalar at 1.
  destruct (_ <=? 0); [unfold ret; eauto|].
  destruct (_ >? _); [unfold ret; eauto|].
  destruct (_ >? _); [unfold ret; eauto|].
  unfold and_scalar.
  destruct (_ || _); [unfold ret; eauto|].
  rewrite decrypt_message_run. eauto.
Qed.

Lemma decode_image_total_witness :
  exists result w',
    @decode_image Example.tagging_fernet (Example.image 1 1) [0xD800]
      (Example.world_with (Example.white 3)) = (inr result, w').
Proof.
  apply (@decode_image_total Example.tagging_fernet
           (Example.image 1 1) (Example.image 1 1) [0xD800]
           (Example.world_with (Example.white 3))
           (Example.world_with (Example.white 3))).
  apply ensure_three_channel. split; [reflexivity|].
  exists 1%nat, 1%nat. reflexivity.
Defined.

(** ** Where the bits lie *)

Lemma unpackbits_lookup (payload : bytes) (k j : nat) (b : byte) :
  payload !! k = Some b -> (j < 8)%nat ->
  unpackbits payload !! (8 * k + j)%nat = Some (bit_of b (7 - Z.of_nat j)).
Proof.
  revert k. induction payload as [|c payload IH]; intros k Hk Hj; [discriminate|].
  cbn [unpackbits flat_map]. fold (unpackbits payload).
  destruct k as [|k].
  - injection Hk as ->. rewrite lookup_app_l by (rewrite unpack_byte_length; lia).
    replace (8 * 0 + j)%nat with j by lia.
    do 8 (destruct j as [|j]; [reflexivity|]). lia.
  - rewrite lookup_app_r by (rewrite unpack_byte_length; lia).
    rewrite unpack_byte_length.
    replace (8 * S k + j - 8)%nat with (8 * k + j)%nat by lia.
    now apply IH.
Qed.

Lemma embedded_lookup_lt (bits xs : bytes) (i : nat) (b x : byte) :
  bits !! i = Some b -> xs !! i = Some x ->
  embedded bits xs !! i = Some (set_lsb x b).
Proof.
  intros Hb Hx. unfold embedded.
  pose proof (lookup_lt_Some _ _ _ Hb) as Hi.
  pose proof (lookup_lt_Some _ _ _ Hx) as Hi'.
  rewrite lookup_app_l by (rewrite length_zip_with, length_take; lia).
  rewrite lookup_zip_with, lookup_take_lt by lia.
  now rewrite Hx, Hb.
Qed.

Lemma embedded_lookup_ge (bits xs : bytes) (i : nat) :
  (length bits <= length xs)%nat -> (length bits <= i)%nat ->
  embedded bits xs !! i = xs !! i.
Proof.
  intros Hle Hi. unfold embedded.
  rewrite lookup_app_r by (rewrite length_zip_with, length_take; lia).
  rewrite length_zip_with, length_take, lookup_drop. f_equal. lia.
Qed.

(** The samples of the array that [encode] returned. *)
Lemma values_encoded (image : ndarray) (bits : bytes) (w w1 : world) :
  valid w image -> (length bits <= size image)%nat ->
  let l := fresh (dom (heap w)) in
  values (set_heap (<[l := embedded bits (values w image)]> (heap w)) w1)
         (NDArray uint8 (shape image) l 0)
  = embedded bits (values w image).
Proof.
  intros Hv Hcap l. pose proof (values_length _ _ Hv) as Hxs.
  unfold values at 1. cbn [buf off]. rewrite set_heap_heap, lookup_total_insert_eq.
  change (drop 0 ?s) with s. apply take_ge.
  rewrite embedded_length by lia. unfold size at 1. cbn [shape].
  fold (size image). lia.
Qed.

(** C5. On a successful [encode], bit [j] (counted from the most significant)
    of byte [k] of the framed payload is the least-significant bit of
    sample [8 * k + j] of the returned array, in row-major order; the upper
    seven bits of that sample are those of the input; every sample past the
    bitstream is the sample of the input. *)
Theorem embedding_layout `{Fernet} (image encoded : ndarray) (height width : nat)
        (message password : str) (w w' : world) :
  valid w image ->
  adtype image = uint8 ->
  shape image = [height; width; 3%nat] ->
  encode image message password w = (inr encoded, w') ->
  exists salt token w1,
    payload_bits_of message password w = (inr (unpackbits (framed salt token)), w1) /\
    let payload := framed salt token in
    let old := values w image in
    let new := values w' encoded in
    length new = length old /\
    (8 * length payload <= length old)%nat /\
    (forall (k j : nat) (b : byte),
        payload !! k = Some b -> (j < 8)%nat ->
        exists x x',
          old !! (8 * k + j)%nat = Some x /\
          new !! (8 * k + j)%nat = Some x' /\
          band x' x01 = bit_of b (7 - Z.of_nat j) /\
          Z.shiftr (u8 x') 1 = Z.shiftr (u8 x) 1) /\
    (forall i : nat, (8 * length payload <= i)%nat -> new !! i = old !! i).
Proof.
  intros Hv Hdt Hshape Henc.
  assert (three_channel image) as Htc by (split; [exact Hdt|eauto]).
  apply encode_Some in Henc as (bits & w1 & Hbits & Hcap & -> & ->);
    [|exact Hv|exact Htc].
  pose proof Hbits as Hinv.
  apply payload_bits_of_Some in Hinv
    as (key & data & token & _ & _ & _ & _ & -> & _).
  exists (entropy_at w (cursor w) 16), token, w1.
  split; [exact Hbits|]. cbn zeta.
  set (payload := framed (entropy_at w (cursor w) 16) token) in *.
  rewrite values_encoded by assumption.
  pose proof (values_length _ _ Hv) as Hxs.
  rewrite unpackbits_length in Hcap.
  split; [apply embedded_length; rewrite unpackbits_length; lia|].
  split; [lia|]. split.
  - intros k j b Hk Hj.
    pose proof (lookup_lt_Some _ _ _ Hk) as Hklt.
    destruct (lookup_lt_is_Some_2 (values w image) (8 * k + j)) as [x Hx]; [lia|].
    pose proof (unpackbits_lookup payload k j b Hk Hj) as Hbit.
    exists x, (set_lsb x (bit_of b (7 - Z.of_nat j))).
    split; [exact Hx|]. split; [now apply embedded_lookup_lt|].
    split; [apply set_lsb_lsb|apply set_lsb_upper]; apply bit_of_is_bit.
  - intros i Hi. apply embedded_lookup_ge; rewrite unpackbits_length; lia.
Qed.

Lemma embedding_layout_witness :
  exists salt token w1,
    @payload_bits_of Example.tagging_fernet Example.hi Example.secret
      (Example.world_with (Example.white 768))
    = (inr (unpackbits (framed salt token)), w1) /\
    let payload := framed salt token in
    let old := values (Example.world_with (Example.white 768)) (Example.image 16 16) in
    let new :=
      values
        (set_heap
           (<[fresh (dom (heap (Example.world_with (Example.white 768)))) :=
                embedded
                  (Example.bits_for (of_string "hi") (of_string "secret")
                                    (Example.world_with (Example.white 768)))
                  (values (Example.world_with (Example.white 768)) (Example.image 16 16))]>
              (heap (Example.world_with (Example.white 768))))
           (drawn 32 (Example.world_with (Example.white 768))))
        (NDArray uint8 [16; 16; 3]%nat
                 (fresh (dom (heap (Example.world_with (Example.white 768))))) 0) in
    length new = length old /\
    (8 * length payload <= length old)%nat /\
    (forall (k j : nat) (b : byte),
        payload !! k = Some b -> (j < 8)%nat ->
        exists x x',
          old !! (8 * k + j)%nat = Some x /\
          new !! (8 * k + j)%nat = Some x' /\
          band x' x01 = bit_of b (7 - Z.of_nat j) /\
          Z.shiftr (u8 x') 1 = Z.shiftr (u8 x) 1) /\
    (forall i : nat, (8 * length payload <= i)%nat -> new !! i = old !! i).
Proof.
  apply (@embedding_layout Example.tagging_fernet (Example.image 16 16) _ 16 16
           Example.hi Example.secret (Example.world_with (Example.white 768))).
  - apply example_valid. reflexivity.
  - reflexivity.
  - reflexivity.
  - apply (example_encode Example.hi Example.secret (of_string "hi") (of_string "secret"));
      [reflexivity|reflexivity|reflexivity|cbn; lia|cbn; lia].
Defined.

(** C7. On a successful [encode] the bytes embedded in the least-significant
    bits are a four-byte big-endian length header, the magic signature
    "STG1", the sixteen bytes of salt and the token, in this order, and the
    header holds 4 + 16 + the length of the token. *)
Theorem payload_layout `{Fernet} (image encoded : ndarray) (height width : nat)
        (message password : str) (w w' : world) :
  valid w image ->
  adtype image = uint8 ->
  shape image = [height; width; 3%nat] ->
  encode image message password w = (inr encoded, w') ->
  exists salt token key data header,
    salt = entropy_at w (cursor w) 16 /\
    length salt = 16%nat /\
    key_of password salt = inr key /\
    utf8_encode message = Some data /\
    encrypt_from_parts key data (clock w) (entropy_at w (cursor w + 16) 16)
      = inr token /\
    length header = 4%nat /\
    from_bytes_big header = Z.of_nat (4 + 16 + length token) /\
    let payload := header ++ of_string "STG1" ++ salt ++ token in
    packbits (lsbs (take (8 * length payload) (values w' encoded))) = payload.
Proof.
  intros Hv Hdt Hshape Henc.
  assert (three_channel image) as Htc by (split; [exact Hdt|eauto]).
  apply encode_Some in Henc as (bits & w1 & Hbits & Hcap & -> & ->);
    [|exact Hv|exact Htc].
  apply payload_bits_of_Some in Hbits
    as (key & data & token & Hk & Hdata & Htok & Hlen & -> & ->).
  cbn zeta in Hk, Hlen.
  set (salt := entropy_at w (cursor w) 16) in *.
  assert (length salt = 16%nat) as Hsalt by apply entropy_at_length.
  assert (length (MAGIC_HEADER ++ salt ++ token) = (4 + 16 + length token)%nat) as Hc.
  { rewrite !length_app, Hsalt. reflexivity. }
  exists salt, token, key, data, (be_digits 4 (Z.of_nat (4 + 16 + length token))).
  split; [reflexivity|]. split; [exact Hsalt|]. split; [exact Hk|].
  split; [exact Hdata|]. split; [exact Htok|].
  split; [apply be_digits_length|].
  split.
  { rewrite from_bytes_be_digits by lia. apply Z.mod_small.
    change (256 ^ Z.of_nat 4) with (2 ^ 32). lia. }
  cbn zeta. rewrite values_encoded by assumption.
  pose proof (values_length _ _ Hv) as Hxs.
  rewrite <- Hc. fold MAGIC_HEADER. fold (framed salt token).
  rewrite <- unpackbits_length.
  rewrite lsbs_take, lsbs_embedded by (auto using unpackbits_bits; lia).
  rewrite take_app_length. apply packbits_unpackbits.
Qed.

Lemma payload_layout_witness :
  exists salt token key data header,
    salt = entropy_at (Example.world_with (Example.white 768)) 0 16 /\
    length salt = 16%nat /\
    key_of Example.secret salt = inr key /\
    utf8_encode Example.hi = Some data /\
    @encrypt_from_parts Example.tagging_fernet key data 1700000000
      (entropy_at (Example.world_with (Example.white 768)) 16 16) = inr token /\
    length header = 4%nat /\
    from_bytes_big header = Z.of_nat (4 + 16 + length token) /\
    let payload := header ++ of_string "STG1" ++ salt ++ token in
    packbits
      (lsbs
         (take (8 * length payload)
            (values
               (set_heap
                  (<[fresh (dom (heap (Example.world_with (Example.white 768)))) :=
                       embedded
                         (Example.bits_for (of_string "hi") (of_string "secret")
                                           (Example.world_with (Example.white 768)))
                         (values (Example.world_with (Example.white 768))
                                 (Example.image 16 16))]>
                     (heap (Example.world_with (Example.white 768))))
                  (drawn 32 (Example.world_with (Example.white 768))))
               (NDArray uint8 [16; 16; 3]%nat
                        (fresh (dom (heap (Example.world_with (Example.white 768))))) 0))))
    = payload.
Proof.
  apply (@payload_layout Example.tagging_fernet (Example.image 16 16) _ 16 16
           Example.hi Example.secret (Example.world_with (Example.white 768))).
  - apply example_valid. reflexivity.
  - reflexivity.
  - reflexivity.
  - apply (example_encode Example.hi Example.secret (of_string "hi") (of_string "secret"));
      [reflexivity|reflexivity|reflexivity|cbn; lia|cbn; lia].
Defined.

(** C6. An image that has, once normalized, fewer than 64 samples makes
    [encode] fail with the image-too-small error whatever the message and
    the password; the state is the one normalization left: no entropy was
    drawn, and a three-channel input leaves the state as it was. *)
Theorem small_image_rejected `{Fernet} (image image' : ndarray)
        (message password : str) (w w0 : world) :
  ensure_rgb_uint8 image w = (inr image', w0) ->
  (size image' < 64)%nat ->
  encode image message password w = (inl too_small_error, w0) /\
  cursor w0 = cursor w /\ clock w0 = clock w /\
  (three_channel image -> w0 = w).
Proof.
  intros Hens Hsmall. rewrite encode_stages, Hens.
  destruct (Nat.ltb_spec (size image') 64) as [_|Hge]; [|lia].
  split; [reflexivity|].
  destruct (ensure_rgb_uint8_spec _ _ _ _ Hens) as (_ & _ & Hcur & Hclk & _).
  split; [exact Hcur|]. split; [exact Hclk|].
  intros Htc. rewrite (ensure_three_channel _ _ Htc) in Hens. congruence.
Qed.

Lemma small_image_rejected_witness :
  @encode Example.tagging_fernet (Example.image 4 5) Example.hi Example.secret
          (Example.world_with (Example.white 60))
  = (inl too_small_error, Example.world_with (Example.white 60)) /\
  cursor (Example.world_with (Example.white 60)) = cursor (Example.world_with (Example.white 60)) /\
  clock (Example.world_with (Example.white 60)) = clock (Example.world_with (Example.white 60)) /\
  (three_channel (Example.image 4 5) ->
   Example.world_with (Example.white 60) = Example.world_with (Example.white 60)).
Proof.
  apply (@small_image_rejected Example.tagging_fernet
           (Example.image 4 5) (Example.image 4 5) Example.hi Example.secret).
  - apply ensure_three_channel. split; [reflexivity|].
    exists 4%nat, 5%nat. reflexivity.
  - unfold size, product. cbn. lia.
Defined.

(** C4, as amended. Capacity boundary, on a normalized image of at least 64
    samples: a framed bitstream of exactly height x width x 3 bits is
    encoded; a longer one makes [encode] fail with the message-too-large
    error, and then no buffer was allocated or written: the buffers are
    those before the call. (Below 64 samples the error is the
    image-too-small one.) *)
Theorem capacity_boundary `{Fernet} (image : ndarray) (height width : nat)
        (message password : str) (w w1 : world) (bits : bytes) :
  valid w image ->
  adtype image = uint8 ->
  shape image = [height; width; 3%nat] ->
  payload_bits_of message password w = (inr bits, w1) ->
  (length bits = height * width * 3 ->
   exists encoded w', encode image message password w = (inr encoded, w'))%nat /\
  (64 <= height * width * 3 -> height * width * 3 < length bits ->
   encode image message password w
   = (inl (too_large_error (length bits) (height * width * 3)), w1) /\
   heap w1 = heap w)%nat.
Proof.
  intros Hv Hdt Hshape Hbits.
  assert (three_channel image) as Htc by (split; [exact Hdt|eauto]).
  assert (size image = height * width * 3)%nat as Hsize.
  { unfold size, product. rewrite Hshape. cbn [fold_right]. lia. }
  split.
  - intros Hlen.
    pose proof (encode_run image image message password w w w1 bits Hv
                  (ensure_three_channel _ _ Htc) Hbits ltac:(lia)) as Henc.
    cbn zeta in Henc. rewrite Henc. eauto.
  - intros H64 Hlong. rewrite encode_stages, (ensure_three_channel _ _ Htc).
    rewrite Hsize, Hbits.
    destruct (Nat.ltb_spec (height * width * 3) 64); [lia|].
    destruct (Nat.ltb_spec (height * width * 3) (length bits)); [|lia].
    split; [reflexivity|].
    destruct (payload_bits_of_state _ _ _ _ _ Hbits) as [n ->]. reflexivity.
Qed.

Lemma capacity_boundary_witness :
  (exists encoded w',
     @encode Example.tagging_fernet (Example.image 8 23) Example.x Example.secret
             (Example.world_with (Example.white 552)) = (inr encoded, w')) /\
  (@encode Example.tagging_fernet (Example.image 8 22) Example.x Example.secret
           (Example.world_with (Example.white 528))
   = (inl (too_large_error
             (length (Example.bits_for (of_string "x") (of_string "secret")
                                       (Example.world_with (Example.white 528))))
             (8 * 22 * 3)),
      drawn 32 (Example.world_with (Example.white 528))) /\
   heap (drawn 32 (Example.world_with (Example.white 528)))
   = heap (Example.world_with (Example.white 528))).
Proof.
  split.
  - apply (proj1 (@capacity_boundary Example.tagging_fernet (Example.image 8 23) 8 23
                    Example.x Example.secret (Example.world_with (Example.white 552))
                    (drawn 32 (Example.world_with (Example.white 552)))
                    (Example.bits_for (of_string "x") (of_string "secret")
                                      (Example.world_with (Example.white 552)))
                    (example_valid 8 23 (Example.white 552) eq_refl) eq_refl eq_refl
                    (example_payload_bits Example.x Example.secret
                       (of_string "x") (of_string "secret") _ eq_refl eq_refl
                       ltac:(cbn; lia)))).
    rewrite example_bits_length. reflexivity.
  - apply (proj2 (@capacity_boundary Example.tagging_fernet (Example.image 8 22) 8 22
                    Example.x Example.secret (Example.world_with (Example.white 528))
                    (drawn 32 (Example.world_with (Example.white 528)))
                    (Example.bits_for (of_string "x") (of_string "secret")
                                      (Example.world_with (Example.white 528)))
                    (example_valid 8 22 (Example.white 528) eq_refl) eq_refl eq_refl
                    (example_payload_bits Example.x Example.secret
                       (of_string "x") (of_string "secret") _ eq_refl eq_refl
                       ltac:(cbn; lia)))).
    + cbn. lia.
    + rewrite example_bits_length. cbn. lia.
Defined.

(** C4, counterexample. On an image of three samples every payload exceeds
    the capacity, and [encode] fails with the image-too-small error, which
    is not the message-too-large one. *)
Lemma small_image_is_not_too_large :
  (exists bits w1,
      @payload_bits_of Example.tagging_fernet Example.hi Example.secret
        (Example.world_with (Example.white 3)) = (inr bits, w1) /\
      (size (Example.image 1 1) < length bits)%nat) /\
  @encode Example.tagging_fernet (Example.image 1 1) Example.hi Example.secret
          (Example.world_with (Example.white 3))
  = (inl too_small_error, Example.world_with (Example.white 3)) /\
  (forall needed available, too_small_error <> too_large_error needed available).
Proof.
  split; [|split].
  - exists (Example.bits_for (of_string "hi") (of_string "secret")
                             (Example.world_with (Example.white 3))),
           (drawn 32 (Example.world_with (Example.white 3))).
    split.
    + apply example_payload_bits; [reflexivity|reflexivity|cbn; lia].
    + rewrite example_bits_length. unfold size, product. cbn. lia.
  - rewrite encode_stages.
    rewrite (ensure_three_channel (Example.image 1 1)); [reflexivity|].
    split; [reflexivity|]. exists 1%nat, 1%nat. reflexivity.
  - intros needed available. unfold too_small_error, too_large_error.
    cbn [String.append]. discriminate.
Qed.

(** C8, as amended. [derive_key] is a pure function of the password and the
    salt: it leaves the state as it is and returns the same outcome in every
    state. For a password that UTF-8 can encode the outcome is a key of 44
    bytes, the url-safe base64 text of the 32 bytes that PBKDF2-HMAC-SHA256
    derives in 100000 iterations; for any other password it is
    [UnicodeEncodeError]. *)
Theorem derive_key_deterministic (password : str) (salt : bytes) (w1 w2 : world) :
  exists outcome,
    derive_key password salt w1 = (outcome, w1) /\
    derive_key password salt w2 = (outcome, w2) /\
    (forall material, utf8_encode password = Some material ->
       let raw := Pbkdf2.pbkdf2_hmac_sha256 material salt 100000 32 in
       length raw = 32%nat /\
       outcome = inr (Base64.urlsafe_b64encode raw) /\
       length (Base64.urlsafe_b64encode raw) = 44%nat) /\
    (utf8_encode password = None -> outcome = inl UnicodeEncodeError).
Proof.
  exists (key_of password salt). rewrite !derive_key_run.
  split; [reflexivity|]. split; [reflexivity|]. unfold key_of. split.
  - intros material ->. cbn zeta.
    pose proof (pbkdf2_length material salt 100000) as Hraw.
    split; [exact Hraw|]. split; [reflexivity|].
    now apply urlsafe_b64encode_32.
  - now intros ->.
Qed.

(** C8, counterexample. The value [derive_key] returns has 44 bytes, not 32. *)
Lemma derived_key_has_44_bytes :
  exists key,
    derive_key Example.secret (entropy_at (Example.world_with []) 0 16)
               (Example.world_with [])
    = (inr key, Example.world_with []) /\
    length (entropy_at (Example.world_with []) 0 16) = 16%nat /\
    length key = 44%nat /\ length key <> 32%nat.
Proof.
  exists (Example.key_for (of_string "secret")
            (entropy_at (Example.world_with []) 0 16)).
  rewrite derive_key_run, example_key_length.
  split; [reflexivity|]. split; [reflexivity|]. split; [reflexivity|]. lia.
Qed.

Section Frame.
Context `{Fernet}.

(** The array a successful [encode] returns lies in a buffer that did not
    exist before the call. *)
Lemma encode_result_fresh (image encoded : ndarray) (message password : str)
      (w w' : world) :
  valid w image ->
  encode image message password w = (inr encoded, w') ->
  heap w !! buf encoded = None /\ valid w' encoded.
Proof.
  intros Hv. rewrite encode_stages.
  destruct (ensure_rgb_uint8 image w) as [[e|image'] w0] eqn:Hens; [discriminate|].
  destruct (ensure_rgb_uint8_spec _ _ _ _ Hens) as (Hsub & _ & _ & _ & Himg).
  destruct (Himg _ eq_refl) as [_ Hv0]. specialize (Hv0 Hv).
  destruct (size image' <? 64)%nat; [discriminate|].
  destruct (payload_bits_of message password w0) as [[e|bits] w1] eqn:Hbits;
    [discriminate|].
  destruct (payload_bits_of_state _ _ _ _ _ Hbits) as [n ->].
  destruct (Nat.ltb_spec (size image') (length bits)) as [Hs|Hs]; [discriminate|].
  rewrite embed_bits_run; [|apply valid_drawn; exact Hv0|exact Hs].
  intros [= <- <-]. cbn [buf]. split.
  - destruct (heap w !! fresh (dom (heap w0))) as [d|] eqn:E; [|reflexivity].
    eapply lookup_weaken in E; [|exact Hsub].
    change (heap (drawn n w0)) with (heap w0).
    rewrite fresh_unallocated in E. discriminate.
  - eexists. rewrite set_heap_heap. split; [apply lookup_insert_eq|].
    cbn [off]. unfold size at 1. cbn [shape]. fold (size image').
    rewrite embedded_length; rewrite values_drawn, (values_length _ _ Hv0); lia.
Qed.

End Frame.

(** C9. [encode] never changes the caller's pixel buffer: whatever the
    outcome, the buffer of the input image holds after the call what it held
    before (as does every buffer that existed), and on success the returned
    array lies in a buffer allocated by the call. *)
Theorem encode_leaves_input `{Fernet} (image : ndarray) (message password : str)
        (w w' : world) (outcome : exn + ndarray) :
  valid w image ->
  encode image message password w = (outcome, w') ->
  heap w' !! buf image = heap w !! buf image /\
  values w' image = values w image /\
  heap w ⊆ heap w' /\
  (forall encoded, outcome = inr encoded ->
     heap w !! buf encoded = None /\ buf encoded <> buf image /\ valid w' encoded).
Proof.
  intros Hv Henc.
  pose proof (encode_frame _ _ _ _ _ _ Hv Henc) as Hsub.
  destruct Hv as (data & Hdata & Hlen).
  assert (heap w' !! buf image = heap w !! buf image) as Hbuf.
  { rewrite Hdata. eapply lookup_weaken; eauto. }
  split; [exact Hbuf|]. split.
  { unfold values. unfold lookup_total, map_lookup_total. now rewrite Hbuf. }
  split; [exact Hsub|].
  intros encoded ->.
  destruct (encode_result_fresh _ _ _ _ _ _ (ex_intro _ data (conj Hdata Hlen)) Henc)
    as [Hfresh Hv'].
  split; [exact Hfresh|]. split; [|exact Hv'].
  intros E. rewrite E, Hdata in Hfresh. discriminate.
Qed.

Lemma encode_leaves_input_witness :
  let w := Example.world_with (Example.white 768) in
  let w' :=
    set_heap (<[fresh (dom (heap w)) :=
                  embedded (Example.bits_for (of_string "hi") (of_string "secret") w)
                           (values w (Example.image 16 16))]> (heap w))
             (drawn 32 w) in
  heap w' !! buf (Example.image 16 16) = heap w !! buf (Example.image 16 16) /\
  values w' (Example.image 16 16) = values w (Example.image 16 16) /\
  heap w ⊆ heap w' /\
  (forall encoded,
     @inr exn ndarray (NDArray uint8 [16; 16; 3]%nat (fresh (dom (heap w))) 0)
     = inr encoded ->
     heap w !! buf encoded = None /\ buf encoded <> buf (Example.image 16 16) /\
     valid w' encoded).
Proof.
  apply (@encode_leaves_input Example.tagging_fernet (Example.image 16 16)
           Example.hi Example.secret (Example.world_with (Example.white 768))).
  - apply example_valid. reflexivity.
  - apply (example_encode Example.hi Example.secret (of_string "hi") (of_string "secret"));
      [reflexivity|reflexivity|reflexivity|cbn; lia|cbn; lia].
Defined.

(** * Further properties of [helper_functions.py] *)

(** ** Normalization *)

(** X1. What [ensure_rgb_uint8] returns is a [uint8] array of shape
    height x width x 3 that holds all its samples; no buffer that existed is
    changed and no entropy is drawn; an input that already has three
    channels is returned itself, not a copy. *)
Theorem normalization_result (image image' : ndarray) (w w0 : world) :
  valid w image ->
  ensure_rgb_uint8 image w = (inr image', w0) ->
  adtype image' = uint8 /\
  (exists height width, shape image' = [height; width; 3%nat]) /\
  valid w0 image' /\
  length (values w0 image') = size image' /\
  heap w ⊆ heap w0 /\
  cursor w0 = cursor w /\
  (ndim image = 3%nat -> nth 2 (shape image) 0%nat = 3%nat ->
   image' = image /\ w0 = w).
Proof.
  intros Hv Hens.
  destruct (ensure_rgb_uint8_spec _ _ _ _ Hens) as (Hsub & _ & Hcur & _ & Himg).
  destruct (Himg _ eq_refl) as [[Hdt Hshape] Hv0]. specialize (Hv0 Hv).
  split; [exact Hdt|]. split; [exact Hshape|]. split; [exact Hv0|].
  split; [now apply values_length|]. split; [exact Hsub|]. split; [exact Hcur|].
  intros Hnd Hch.
  assert (three_channel image) as Htc.
  { unfold ensure_rgb_uint8 in Hens.
    destruct (bool_decide (adtype image = uint8)) eqn:Edt; [|discriminate].
    apply bool_decide_eq_true in Edt. split; [exact Edt|].
    unfold ndim in Hnd.
    destruct (shape image) as [|a [|b [|c [|d rest]]]]; try discriminate.
    cbn in Hch. subst c. eauto. }
  rewrite (ensure_three_channel _ _ Htc) in Hens.
  split; congruence.
Qed.

Lemma normalization_result_witness :
  adtype (Example.image 4 5) = uint8 /\
  (exists height width, shape (Example.image 4 5) = [height; width; 3%nat]) /\
  valid (Example.world_with (Example.white 60)) (Example.image 4 5) /\
  length (values (Example.world_with (Example.white 60)) (Example.image 4 5))
  = size (Example.image 4 5) /\
  heap (Example.world_with (Example.white 60))
    ⊆ heap (Example.world_with (Example.white 60)) /\
  cursor (Example.world_with (Example.white 60))
  = cursor (Example.world_with (Example.white 60)) /\
  (ndim (Example.image 4 5) = 3%nat ->
   nth 2 (shape (Example.image 4 5)) 0%nat = 3%nat ->
   Example.image 4 5 = Example.image 4 5 /\
   Example.world_with (Example.white 60) = Example.world_with (Example.white 60)).
Proof.
  apply (normalization_result (Example.image 4 5) (Example.image 4 5)
           (Example.world_with (Example.white 60))
           (Example.world_with (Example.white 60))).
  - apply example_valid. reflexivity.
  - apply ensure_three_channel. split; [reflexivity|].
    exists 4%nat, 5%nat. reflexivity.
Defined.

(** X2. [ensure_rgb_uint8] refuses, with [ValueError] and without touching
    the state, every array that is not [uint8], and every [uint8] array
    that has neither two dimensions nor three dimensions with three or four
    channels; the second message ends with the shape of the array. *)
Theorem normalization_refuses (image : ndarray) (w : world) :
  (adtype image <> uint8 ->
   ensure_rgb_uint8 image w = (inl (ValueError "Image must be uint8 type"), w)) /\
  (adtype image = uint8 ->
   ndim image <> 2%nat ->
   (ndim image <> 3%nat \/
    (nth 2 (shape image) 0%nat <> 3%nat /\ nth 2 (shape image) 0%nat <> 4%nat)) ->
   ensure_rgb_uint8 image w =
   (inl (ValueError
           (String.append "Image must have 3 channels (RGB/BGR). Found shape: "
                          (show_shape (shape image)))), w)).
Proof.
  unfold ensure_rgb_uint8. split.
  - intros Hdt. now rewrite bool_decide_eq_false_2.
  - intros Hdt H2 H3. rewrite bool_decide_eq_true_2 by exact Hdt. cbn [negb].
    unfold bind.
    destruct (Nat.eqb_spec (ndim image) 2) as [E|_]; [contradiction|].
    destruct (Nat.eqb_spec (ndim image) 3) as [E3|E3]; cbn [andb].
    + destruct H3 as [H3|[Hc3 Hc4]]; [contradiction|].
      destruct (Nat.eqb_spec (nth 2 (shape image) 0%nat) 4) as [E4|_]; [contradiction|].
      unfold ret at 1. cbn iota.
      destruct (Nat.eqb_spec (ndim image) 3) as [_|E]; [|contradiction].
      destruct (Nat.eqb_spec (nth 2 (shape image) 0%nat) 3) as [E|_]; [contradiction|].
      reflexivity.
    + unfold ret at 1. cbn iota.
      destruct (Nat.eqb_spec (ndim image) 3) as [E|_]; [contradiction|].
      reflexivity.
Qed.

(** ** Sealing and opening a message *)

(** X3. What [encrypt_message] returns opens under the same password:
    the result is the sixteen bytes of salt drawn from the entropy source
    followed by the token, and [decrypt_message] on it returns the message,
    in any state. *)
Theorem encrypt_decrypt_message `{Fernet} (message password : str)
        (sealed : bytes) (w w1 w2 : world) :
  fernet_opens_sealed ->
  encrypt_message message password w = (inr sealed, w1) ->
  take 16 sealed = entropy_at w (cursor w) 16 /\
  (16 <= length sealed)%nat /\
  decrypt_message sealed password w2 = (inr message, w2).
Proof.
  intros Hopen. rewrite encrypt_message_run. cbn zeta.
  set (salt := entropy_at w (cursor w) 16).
  assert (length salt = 16%nat) as Hsalt by apply entropy_at_length.
  destruct (key_of password salt) as [e|key] eqn:Hk; [discriminate|].
  destruct (utf8_encode message) as [data|] eqn:Hdata; [|discriminate].
  destruct (encrypt_from_parts key data _ _) as [e|token] eqn:Htok; [discriminate|].
  intros E. apply (f_equal fst) in E. cbn [fst] in E.
  apply (inj inr) in E. subst sealed.
  split; [apply take_app_length'; now rewrite Hsalt|].
  split; [rewrite length_app; lia|].
  rewrite decrypt_message_run. f_equal. f_equal. unfold opened.
  rewrite length_app, Hsalt.
  destruct (Nat.ltb_spec (16 + length token) 16); [lia|].
  rewrite take_app_length' by (now rewrite Hsalt).
  rewrite drop_app_length' by (now rewrite Hsalt).
  rewrite Hk, (Hopen _ _ _ _ _ (key_of_fernet_key _ _ _ Hk) Htok).
  now rewrite (utf8_decode_encode _ _ Hdata).
Qed.

Lemma example_encrypt_message (message password : str) (data material : bytes)
      (w : world) :
  utf8_encode message = Some data ->
  utf8_encode password = Some material ->
  @encrypt_message Example.tagging_fernet message password w
  = (inr (entropy_at w (cursor w) 16
          ++ Example.key_for material (entropy_at w (cursor w) 16) ++ data),
     drawn 32 w).
Proof.
  intros Hdata Hmat. rewrite encrypt_message_run. cbn zeta.
  unfold key_of. rewrite Hmat, Hdata. fold (Example.key_for material (entropy_at w (cursor w) 16)).
  cbn [encrypt_from_parts Example.tagging_fernet].
  now rewrite example_key_length.
Qed.

Lemma encrypt_decrypt_message_witness :
  let w := Example.world_with [] in
  let sealed :=
    entropy_at w 0 16 ++ Example.key_for (of_string "secret") (entropy_at w 0 16)
      ++ of_string "hi" in
  take 16 sealed = entropy_at w (cursor w) 16 /\
  (16 <= length sealed)%nat /\
  @decrypt_message Example.tagging_fernet sealed Example.secret w
  = (inr Example.hi, w).
Proof.
  apply (@encrypt_decrypt_message Example.tagging_fernet Example.hi Example.secret
           _ (Example.world_with []) (drawn 32 (Example.world_with []))
           (Example.world_with [])).
  - exact tagging_opens_sealed.
  - apply (example_encrypt_message Example.hi Example.secret); reflexivity.
Defined.

(** X4. [decrypt_message] raises nothing and changes nothing: every way in
    which decryption fails (fewer than sixteen bytes, a password that cannot
    be encoded, a token the library refuses, a plaintext that is not UTF-8)
    ends in the one error string, and in every other case the result is the
    decoded plaintext. *)
Theorem decrypt_message_catches_all `{Fernet} (data : bytes) (password : str)
        (w : world) :
  exists result,
    decrypt_message data password w = (inr result, w) /\
    (decryption_fails data password -> result = decrypt_error) /\
    (forall key plain message,
        (16 <= length data)%nat ->
        key_of password (take 16 data) = inr key ->
        decrypt key (drop 16 data) = inr plain ->
        utf8_decode plain = Some message ->
        result = message).
Proof.
  exists (opened data password). split; [apply decrypt_message_run|].
  split; [apply opened_fails|].
  intros key plain message Hlen Hk Hp Hm. unfold opened.
  destruct (Nat.ltb_spec (length data) 16); [lia|].
  now rewrite Hk, Hp, Hm.
Qed.

(** ** What decoding reads, what encoding writes *)

Lemma decoded_lsbs `{Fernet} (xs ys : bytes) (total : nat) (password : str) :
  lsbs xs = lsbs ys -> decoded xs total password = decoded ys total password.
Proof.
  intros E. unfold decoded, header_of, payload_of.
  now rewrite !lsbs_take, !lsbs_drop, E.
Qed.

Lemma lsbs_length (xs : bytes) : length (lsbs xs) = length xs.
Proof. unfold lsbs. apply length_map. Qed.

(** X5. [decode_image] reads nothing but the least-significant bits: two
    normalized images whose samples agree in that bit decode to the same
    result under every password. *)
Theorem decode_reads_only_lsbs `{Fernet} (image1 image2 : ndarray) (password : str)
        (w1 w2 : world) :
  three_channel image1 -> three_channel image2 ->
  valid w1 image1 -> valid w2 image2 ->
  lsbs (values w1 image1) = lsbs (values w2 image2) ->
  fst (decode_image image1 password w1) = fst (decode_image image2 password w2).
Proof.
  intros Htc1 Htc2 Hv1 Hv2 Hlsb.
  pose proof (values_length _ _ Hv1) as Hl1.
  pose proof (values_length _ _ Hv2) as Hl2.
  rewrite (decode_image_run image1 image1 password w1 w1)
    by (auto using ensure_three_channel).
  rewrite (decode_image_run image2 image2 password w2 w2)
    by (auto using ensure_three_channel).
  cbn [fst]. f_equal.
  assert (size image1 = size image2) as ->.
  { rewrite <- Hl1, <- Hl2, <- (lsbs_length (values w1 image1)), Hlsb.
    apply lsbs_length. }
  now apply decoded_lsbs.
Qed.

Lemma decode_reads_only_lsbs_witness :
  fst (@decode_image Example.tagging_fernet (Example.image 1 1) Example.secret
         (Example.world_with (Example.black 3)))
  = fst (@decode_image Example.tagging_fernet (Example.image 1 1) Example.secret
           (Example.world_with [x02; xfe; x80])).
Proof.
  apply (@decode_reads_only_lsbs Example.tagging_fernet).
  - split; [reflexivity|]. exists 1%nat, 1%nat. reflexivity.
  - split; [reflexivity|]. exists 1%nat, 1%nat. reflexivity.
  - apply example_valid. reflexivity.
  - apply example_valid. reflexivity.
  - reflexivity.
Defined.

Lemma set_lsb_close (x b : byte) :
  is_bit b -> -1 <= u8 (set_lsb x b) - u8 x <= 1.
Proof. intros [-> | ->]; destruct x; vm_compute; split; discriminate. Qed.

(** X6. The array [encode] returns has the type and the shape of the
    normalized input and as many samples, and no sample differs from the
    input's by more than one. *)
Theorem encode_changes_by_one `{Fernet} (image encoded : ndarray)
        (height width : nat) (message password : str) (w w' : world) :
  valid w image ->
  adtype image = uint8 ->
  shape image = [height; width; 3%nat] ->
  encode image message password w = (inr encoded, w') ->
  adtype encoded = uint8 /\
  shape encoded = [height; width; 3%nat] /\
  length (values w' encoded) = (height * width * 3)%nat /\
  forall (i : nat) (x x' : byte),
    values w image !! i = Some x ->
    values w' encoded !! i = Some x' ->
    -1 <= u8 x' - u8 x <= 1.
Proof.
  intros Hv Hdt Hshape Henc.
  assert (three_channel image) as Htc by (split; [exact Hdt|eauto]).
  assert (size image = height * width * 3)%nat as Hsize.
  { unfold size, product. rewrite Hshape. cbn [fold_right]. lia. }
  apply encode_Some in Henc as (bits & w1 & Hbits & Hcap & -> & ->);
    [|exact Hv|exact Htc].
  pose proof (values_length _ _ Hv) as Hxs.
  pose proof Hbits as Hinv.
  apply payload_bits_of_Some in Hinv
    as (key & data & token & _ & _ & _ & _ & Hb & _).
  rewrite values_encoded by assumption.
  split; [reflexivity|]. split; [exact Hshape|].
  split; [rewrite embedded_length; lia|].
  intros i x x' Hx Hx'.
  destruct (bits !! i) as [b|] eqn:Hbi.
  - rewrite (embedded_lookup_lt bits _ i b x Hbi Hx) in Hx'.
    apply (inj Some) in Hx'. subst x'. apply set_lsb_close.
    assert (Forall is_bit bits) as Hall by (rewrite Hb; apply unpackbits_bits).
    rewrite Forall_lookup in Hall. exact (Hall i b Hbi).
  - apply lookup_ge_None in Hbi.
    rewrite embedded_lookup_ge in Hx' by lia.
    rewrite Hx in Hx'. apply (inj Some) in Hx'. subst x'. lia.
Qed.

Lemma encode_changes_by_one_witness :
  let w := Example.world_with (Example.white 768) in
  let encoded := NDArray uint8 [16; 16; 3]%nat (fresh (dom (heap w))) 0 in
  let w' :=
    set_heap (<[fresh (dom (heap w)) :=
                  embedded (Example.bits_for (of_string "hi") (of_string "secret") w)
                           (values w (Example.image 16 16))]> (heap w))
             (drawn 32 w) in
  adtype encoded = uint8 /\
  shape encoded = [16; 16; 3]%nat /\
  length (values w' encoded) = (16 * 16 * 3)%nat /\
  forall (i : nat) (x x' : byte),
    values w (Example.image 16 16) !! i = Some x ->
    values w' encoded !! i = Some x' ->
    -1 <= u8 x' - u8 x <= 1.
Proof.
  apply (@encode_changes_by_one Example.tagging_fernet (Example.image 16 16) _ 16 16
           Example.hi Example.secret (Example.world_with (Example.white 768))).
  - apply example_valid. reflexivity.
  - reflexivity.
  - reflexivity.
  - apply (example_encode Example.hi Example.secret (of_string "hi") (of_string "secret"));
      [reflexivity|reflexivity|reflexivity|cbn; lia|cbn; lia].
Defined.

(** ** The smallest carrier *)

(** X7. The header, the signature and the salt alone take 192 bits: on an
    image that has fewer than 192 samples once normalized, [encode] fails
    for every message and every password (the guard at 64 samples lets
    images through that can hold nothing). *)
Theorem under_192_samples_nothing_encodes `{Fernet} (image image' : ndarray)
        (message password : str) (w w0 : world) :
  ensure_rgb_uint8 image w = (inr image', w0) ->
  (size image' < 192)%nat ->
  exists e w', encode image message password w = (inl e, w').
Proof.
  intros Hens Hsmall. rewrite encode_stages, Hens.
  destruct (size image' <? 64)%nat; [eauto|].
  destruct (payload_bits_of message password w0) as [[e|bits] w1] eqn:Hbits; [eauto|].
  pose proof (payload_bits_of_length _ _ _ _ _ Hbits) as H192.
  destruct (Nat.ltb_spec (size image') (length bits)); [eauto|lia].
Qed.

Lemma under_192_samples_nothing_encodes_witness :
  exists e w',
    @encode Example.tagging_fernet (Example.image 7 9) [] Example.secret
            (Example.world_with (Example.white 189)) = (inl e, w').
Proof.
  apply (@under_192_samples_nothing_encodes Example.tagging_fernet
           (Example.image 7 9) (Example.image 7 9) [] Example.secret
           (Example.world_with (Example.white 189))
           (Example.world_with (Example.white 189))).
  - apply ensure_three_channel. split; [reflexivity|].
    exists 7%nat, 9%nat. reflexivity.
  - unfold size, product. cbn. lia.
Defined.

Lemma packbits_length_bytes (n : nat) (bits : bytes) :
  length bits = (8 * n)%nat -> length (packbits bits) = n.
Proof.
  revert bits. induction n as [|n IH]; intros bits Hlen.
  - destruct bits; [reflexivity|discriminate].
  - do 8 (destruct bits as [|? bits]; [cbn [length] in Hlen; lia|]).
    cbn [packbits length]. f_equal. apply IH. cbn [length] in Hlen. lia.
Qed.

Lemma payload_of_length (samples : bytes) (n : Z) :
  0 <= n -> 32 + n * 8 <= Z.of_nat (length samples) ->
  length (payload_of samples n) = Z.to_nat n.
Proof.
  intros Hn Hfit. unfold payload_of. apply packbits_length_bytes.
  rewrite lsbs_length, length_take, length_drop. lia.
Qed.

(** X8. Nor does such an image decode to anything: on a normalized image of
    fewer than 192 samples [decode_image] returns one of its three error
    strings, whatever the samples and the password. *)
Theorem under_192_samples_nothing_decodes `{Fernet} (image image' : ndarray)
        (password : str) (w w0 : world) :
  valid w image ->
  ensure_rgb_uint8 image w = (inr image', w0) ->
  (size image' < 192)%nat ->
  exists result w',
    decode_image image password w = (inr result, w') /\
    (result = no_data_error \/ result = incomplete_error \/ result = decrypt_error).
Proof.
  intros Hv Hens Hsmall.
  destruct (ensure_rgb_uint8_spec _ _ _ _ Hens) as (_ & _ & _ & _ & Himg).
  destruct (Himg _ eq_refl) as [_ Hv0]. specialize (Hv0 Hv).
  pose proof (values_length _ _ Hv0) as Hlen.
  rewrite (decode_image_run _ _ _ _ _ Hens Hlen).
  do 2 eexists. split; [reflexivity|].
  set (xs := values w0 image') in *.
  destruct (Z.le_gt_cases (header_of xs) 0) as [Hn|Hn].
  { left. now apply decoded_no_data. }
  destruct (Z.le_gt_cases (header_of xs) ((Z.of_nat (size image') - 32) / 8))
    as [Hfit|Hfit].
  2: { right. left. apply decoded_incomplete; lia. }
  rewrite decoded_fits by lia. cbn zeta.
  destruct (_ || _); [now left|]. right. right.
  apply opened_fails. left.
  pose proof (Z.mul_div_le (Z.of_nat (size image') - 32) 8 ltac:(lia)) as Hdiv.
  assert ((Z.of_nat (size image') - 32) / 8 < 20) as H20.
  { apply Z.div_lt_upper_bound; lia. }
  rewrite length_drop, payload_of_length by lia. lia.
Qed.

Lemma under_192_samples_nothing_decodes_witness :
  exists result w',
    @decode_image Example.tagging_fernet (Example.image 7 9) Example.secret
      (Example.world_with (Example.white 189)) = (inr result, w') /\
    (result = no_data_error \/ result = incomplete_error \/ result = decrypt_error).
Proof.
  apply (@under_192_samples_nothing_decodes Example.tagging_fernet
           (Example.image 7 9) (Example.image 7 9) Example.secret
           (Example.world_with (Example.white 189))
           (Example.world_with (Example.white 189))).
  - apply example_valid. reflexivity.
  - apply ensure_three_channel. split; [reflexivity|].
    exists 7%nat, 9%nat. reflexivity.
  - unfold size, product. cbn. lia.
Defined.

(** ** Text that cannot be encoded *)

(** X9. When the password or the message holds a lone surrogate, [encode]
    on an image that passed the size guard raises [UnicodeEncodeError]; the
    salt has been drawn by then, and no buffer was allocated or written
    after normalization. *)
Theorem unencodable_text_raises `{Fernet} (image image' : ndarray)
        (message password : str) (w w0 : world) :
  ensure_rgb_uint8 image w = (inr image', w0) ->
  (64 <= size image')%nat ->
  utf8_encode password = None \/ utf8_encode message = None ->
  encode image message password w = (inl UnicodeEncodeError, drawn 16 w0).
Proof.
  intros Hens H64 Hbad. rewrite encode_stages, Hens.
  destruct (Nat.ltb_spec (size image') 64); [lia|].
  unfold payload_bits_of, bind. rewrite encrypt_message_run. cbn zeta.
  unfold key_of.
  destruct (utf8_encode password) as [material|]; [|reflexivity].
  destruct Hbad as [Hbad|Hbad]; [discriminate|]. now rewrite Hbad.
Qed.

Lemma unencodable_text_raises_witness :
  @encode Example.tagging_fernet (Example.image 16 16) [0xDC00] Example.secret
          (Example.world_with (Example.white 768))
  = (inl UnicodeEncodeError, drawn 16 (Example.world_with (Example.white 768))).
Proof.
  apply (@unencodable_text_raises Example.tagging_fernet
           (Example.image 16 16) (Example.image 16 16) [0xDC00] Example.secret
           (Example.world_with (Example.white 768))
           (Example.world_with (Example.white 768))).
  - apply ensure_three_channel. split; [reflexivity|].
    exists 16%nat, 16%nat. reflexivity.
  - unfold size, product. cbn. lia.
  - right. reflexivity.
Defined.

(** ** Key derivation *)

(** X10. [derive_key] does not see a trailing U+0000: a password whose
    encoding is shorter than 64 bytes and the same password followed by
    U+0000 give the same key for every salt. *)
Theorem derive_key_ignores_trailing_nul (password : str) (material salt : bytes)
        (w : world) :
  utf8_encode password = Some material ->
  (length material < 64)%nat ->
  derive_key (password ++ [0]) salt w = derive_key password salt w.
Proof.
  intros Henc Hlen. rewrite !derive_key_run.
  now rewrite (key_of_trailing_nul password material salt Henc Hlen).
Qed.

Lemma derive_key_ignores_trailing_nul_witness :
  derive_key (Example.secret ++ [0]) (entropy_at (Example.world_with []) 0 16)
             (Example.world_with [])
  = derive_key Example.secret (entropy_at (Example.world_with []) 0 16)
               (Example.world_with []).
Proof.
  apply (derive_key_ignores_trailing_nul Example.secret (of_string "secret")).
  - reflexivity.
  - cbn. lia.
Defined.

(** ** Decoding leaves everything in place *)

(** X11. [decode_image] writes to no buffer that existed, draws no entropy
    and does not read the clock forward: after the call, successful or not,
    the image holds the samples it held. *)
Theorem decode_image_read_only `{Fernet} (image : ndarray) (password : str)
        (w w' : world) (outcome : exn + str) :
  valid w image ->
  decode_image image password w = (outcome, w') ->
  heap w ⊆ heap w' /\
  values w' image = values w image /\
  entropy w' = entropy w /\ cursor w' = cursor w /\ clock w' = clock w.
Proof.
  intros Hv Hdec.
  assert (heap w ⊆ heap w' /\
          entropy w' = entropy w /\ cursor w' = cursor w /\ clock w' = clock w)
    as (Hsub & He & Hc & Hk).
  { destruct (ensure_rgb_uint8 image w) as [[e|image'] w0] eqn:Hens;
      destruct (ensure_rgb_uint8_spec _ _ _ _ Hens) as (Hsub & He & Hc & Hk & Himg).
    - unfold decode_image, bind in Hdec. rewrite Hens in Hdec.
      apply (f_equal snd) in Hdec. cbn [snd] in Hdec. subst w'. auto.
    - destruct (Himg _ eq_refl) as [_ Hv0]. specialize (Hv0 Hv).
      rewrite (decode_image_run _ _ _ _ _ Hens (values_length _ _ Hv0)) in Hdec.
      apply (f_equal snd) in Hdec. cbn [snd] in Hdec. subst w'.
      split; [|auto].
      etrans; [exact Hsub|]. apply allocated_subseteq. }
  split; [exact Hsub|]. split; [|auto].
  destruct Hv as (data & Hdata & _).
  unfold values, lookup_total, map_lookup_total.
  now rewrite Hdata, (lookup_weaken _ _ _ _ Hdata Hsub).
Qed.

Lemma decode_image_read_only_witness :
  let w := Example.world_with (Example.white 3) in
  let w' := allocated (values w (Example.image 1 1)) w in
  heap w ⊆ heap w' /\
  values w' (Example.image 1 1) = values w (Example.image 1 1) /\
  entropy w' = entropy w /\ cursor w' = cursor w /\ clock w' = clock w.
Proof.
  apply (@decode_image_read_only Example.tagging_fernet (Example.image 1 1)
           Example.secret (Example.world_with (Example.white 3)) _
           (inr (@decoded Example.tagging_fernet
                   (values (Example.world_with (Example.white 3)) (Example.image 1 1))
                   (size (Example.image 1 1)) Example.secret))).
  - apply example_valid. reflexivity.
  - apply decode_image_run; [|reflexivity].
    apply ensure_three_channel. split; [reflexivity|].
    exists 1%nat, 1%nat. reflexivity.
Defined.

(** ** Encoding twice *)

(** X12. A second [encode] into the image a first one returned replaces the
    first message: when the second framed bitstream fits, the second call
    succeeds and [decode_image] with the second password returns the second
    message. *)
Theorem second_encode_replaces_first `{Fernet} (image first : ndarray)
        (height width : nat) (m1 p1 m2 p2 : str) (w w1 w2 : world) (bits2 : bytes) :
  fernet_opens_sealed ->
  valid w image ->
  adtype image = uint8 ->
  shape image = [height; width; 3%nat] ->
  encode image m1 p1 w = (inr first, w1) ->
  payload_bits_of m2 p2 w1 = (inr bits2, w2) ->
  (length bits2 <= height * width * 3)%nat ->
  exists second w3,
    encode first m2 p2 w1 = (inr second, w3) /\
    buf second <> buf first /\
    exists w4, decode_image second p2 w3 = (inr m2, w4).
Proof.
  intros Hopen Hv Hdt Hshape Henc1 Hbits2 Hcap.
  assert (three_channel image) as Htc by (split; [exact Hdt|eauto]).
  destruct (encode_result_fresh _ _ _ _ _ _ Hv Henc1) as [_ Hv1].
  apply encode_Some in Henc1 as (bits1 & w0 & _ & _ & Hfirst & _);
    [|exact Hv|exact Htc].
  assert (three_channel first) as Htc1.
  { subst first. split; [reflexivity|]. cbn [shape]. eauto. }
  assert (size first = height * width * 3)%nat as Hsize.
  { subst first. unfold size, product. cbn [shape]. rewrite Hshape.
    cbn [fold_right]. lia. }
  destruct (decode_same_key first m2 p2 p2 w1 w2 bits2 Hopen Hv1 Htc1 Hbits2
              ltac:(lia) eq_refl) as (second & w3 & Henc2 & Hdec).
  exists second, w3. split; [exact Henc2|]. split; [|exact Hdec].
  destruct (encode_result_fresh _ _ _ _ _ _ Hv1 Henc2) as [Hfresh _].
  destruct Hv1 as (d & Hd & _). intros E. rewrite E, Hd in Hfresh. discriminate.
Qed.

Lemma second_encode_replaces_first_witness :
  let w := Example.world_with (Example.white 768) in
  let first := NDArray uint8 [16; 16; 3]%nat (fresh (dom (heap w))) 0 in
  let w1 :=
    set_heap (<[fresh (dom (heap w)) :=
                  embedded (Example.bits_for (of_string "hi") (of_string "secret") w)
                           (values w (Example.image 16 16))]> (heap w))
             (drawn 32 w) in
  exists second w3,
    @encode Example.tagging_fernet first Example.x Example.a w1 = (inr second, w3) /\
    buf second <> buf first /\
    exists w4, @decode_image Example.tagging_fernet second Example.a w3
               = (inr Example.x, w4).
Proof.
  intros w first w1.
  apply (@second_encode_replaces_first Example.tagging_fernet
           (Example.image 16 16) first 16 16
           Example.hi Example.secret Example.x Example.a w w1 (drawn 32 w1)
           (Example.bits_for (of_string "x") (of_string "a") w1)).
  - exact tagging_opens_sealed.
  - apply example_valid. reflexivity.
  - reflexivity.
  - reflexivity.
  - apply (example_encode Example.hi Example.secret (of_string "hi") (of_string "secret"));
      [reflexivity|reflexivity|reflexivity|cbn; lia|cbn; lia].
  - apply example_payload_bits; [reflexivity|reflexivity|cbn; lia].
  - rewrite example_bits_length. cbn. lia.
Defined.

(** ** A cropped carrier *)

Lemma header_of_take (k : nat) (samples : bytes) :
  (32 <= k)%nat -> header_of (take k samples) = header_of samples.
Proof.
  intros Hk. unfold header_of. rewrite take_take. now rewrite Nat.min_l by lia.
Qed.

(** X13. An encoded image that was cut down to fewer samples than the
    bitstream has (but at least the 32 of the header) decodes, under every
    password, to "Error: Encoded data incomplete or corrupted.". *)
Theorem cropped_image_is_incomplete `{Fernet} (image encoded cropped : ndarray)
        (height width : nat) (message password other : str)
        (w w1 w' wc : world) (bits : bytes) :
  valid w image ->
  adtype image = uint8 ->
  shape image = [height; width; 3%nat] ->
  payload_bits_of message password w = (inr bits, w1) ->
  encode image message password w = (inr encoded, w') ->
  three_channel cropped ->
  valid wc cropped ->
  values wc cropped = take (size cropped) (values w' encoded) ->
  (32 <= size cropped < length bits)%nat ->
  exists w'', decode_image cropped other wc = (inr incomplete_error, w'').
Proof.
  intros Hv Hdt Hshape Hbits Henc Htcc Hvc Hvals [H32 Hcut].
  assert (three_channel image) as Htc by (split; [exact Hdt|eauto]).
  apply encode_Some in Henc as (bits' & w1' & Hbits' & Hcap & -> & ->);
    [|exact Hv|exact Htc].
  rewrite Hbits in Hbits'. apply (f_equal fst) in Hbits'. cbn [fst] in Hbits'.
  apply (inj inr) in Hbits'. subst bits'.
  rewrite values_encoded in Hvals by assumption.
  apply payload_bits_of_Some in Hbits
    as (key & data & token & _ & _ & _ & Hlen & -> & _).
  cbn zeta in Hlen. set (salt := entropy_at w (cursor w) 16) in *.
  pose proof (values_length _ _ Hv) as Hxs.
  pose proof (values_length _ _ Hvc) as Hlc.
  rewrite (decode_image_run cropped cropped other wc wc);
    [|now apply ensure_three_channel|exact Hlc].
  eexists. f_equal. f_equal.
  assert (header_of (values wc cropped)
          = Z.of_nat (length (MAGIC_HEADER ++ salt ++ token))) as Hhdr.
  { rewrite Hvals, header_of_take by exact H32.
    apply header_of_embedded; [exact Hlen|lia]. }
  rewrite unpackbits_length, framed_length in Hcut.
  assert (length (MAGIC_HEADER ++ salt ++ token) = (4 + length salt + length token)%nat)
    as Hc by (rewrite !length_app; reflexivity).
  apply decoded_incomplete; rewrite Hhdr; [lia|].
  apply Z.lt_gt. apply Z.div_lt_upper_bound; lia.
Qed.

Lemma cropped_image_is_incomplete_witness :
  let w := Example.world_with (Example.white 768) in
  let encoded := NDArray uint8 [16; 16; 3]%nat (fresh (dom (heap w))) 0 in
  let w' :=
    set_heap (<[fresh (dom (heap w)) :=
                  embedded (Example.bits_for (of_string "hi") (of_string "secret") w)
                           (values w (Example.image 16 16))]> (heap w))
             (drawn 32 w) in
  exists w'',
    @decode_image Example.tagging_fernet (Example.image 4 8) Example.a
      (Example.world_with (take 96 (values w' encoded)))
    = (inr incomplete_error, w'').
Proof.
  intros w encoded w'.
  assert (length (values w' encoded) = 768%nat) as Hlen.
  { unfold w', encoded.
    rewrite (values_encoded (Example.image 16 16));
      [|apply example_valid; reflexivity
       |rewrite example_bits_length; unfold size, product; cbn; lia].
    rewrite embedded_length; [reflexivity|].
    rewrite example_bits_length.
    rewrite (values_length w (Example.image 16 16))
      by (apply example_valid; reflexivity).
    unfold size, product. cbn. lia. }
  apply (@cropped_image_is_incomplete Example.tagging_fernet
           (Example.image 16 16) encoded (Example.image 4 8) 16 16
           Example.hi Example.secret Example.a w (drawn 32 w) w'
           (Example.world_with (take 96 (values w' encoded)))
           (Example.bits_for (of_string "hi") (of_string "secret") w)).
  - apply example_valid. reflexivity.
  - reflexivity.
  - reflexivity.
  - apply example_payload_bits; [reflexivity|reflexivity|cbn; lia].
  - apply (example_encode Example.hi Example.secret (of_string "hi") (of_string "secret"));
      [reflexivity|reflexivity|reflexivity|cbn; lia|cbn; lia].
  - split; [reflexivity|]. exists 4%nat, 8%nat. reflexivity.
  - apply example_valid. rewrite length_take, Hlen. reflexivity.
  - unfold values at 1. cbn [buf off Example.image Example.world_with heap].
    rewrite lookup_total_singleton. change (drop 0 ?l) with l.
    apply take_ge. rewrite length_take, Hlen. unfold size, product. cbn. lia.
  - rewrite example_bits_length. unfold size, product. cbn. lia.
Defined.

(** ** A damaged signature *)

Lemma lsbs_bits (xs : bytes) : Forall is_bit (lsbs xs).
Proof.
  unfold lsbs. induction xs as [|x xs IH]; [apply Forall_nil_2|].
  cbn [map]. apply Forall_cons_2; [|exact IH].
  unfold is_bit. destruct x; vm_compute; auto.
Qed.

Lemma unpack_pack_byte (b0 b1 b2 b3 b4 b5 b6 b7 : byte) :
  is_bit b0 -> is_bit b1 -> is_bit b2 -> is_bit b3 ->
  is_bit b4 -> is_bit b5 -> is_bit b6 -> is_bit b7 ->
  unpack_byte (pack_byte [b0; b1; b2; b3; b4; b5; b6; b7])
  = [b0; b1; b2; b3; b4; b5; b6; b7].
Proof.
  intros [-> | ->] [-> | ->] [-> | ->] [-> | ->]
         [-> | ->] [-> | ->] [-> | ->] [-> | ->]; vm_compute; reflexivity.
Qed.

Lemma unpackbits_packbits (k : nat) (bits : bytes) :
  Forall is_bit bits -> length bits = (8 * k)%nat ->
  unpackbits (packbits bits) = bits.
Proof.
  revert bits. induction k as [|k IH]; intros bits Hall Hlen.
  - destruct bits; [reflexivity|discriminate].
  - do 8 (destruct bits as [|? bits]; [cbn [length] in Hlen; lia|]).
    repeat match goal with
           | H : Forall is_bit (_ :: _) |- _ => apply Forall_cons_1 in H as [? H]
           end.
    cbn [packbits unpackbits flat_map]. fold (unpackbits (packbits bits)).
    rewrite unpack_pack_byte by assumption.
    rewrite (IH bits) by (auto; cbn [length] in Hlen; lia).
    reflexivity.
Qed.

Lemma packbits_take (k : nat) (bits : bytes) :
  (8 * k <= length bits)%nat ->
  take k (packbits bits) = packbits (take (8 * k) bits).
Proof.
  revert bits. induction k as [|k IH]; intros bits Hlen.
  - reflexivity.
  - do 8 (destruct bits as [|? bits]; [cbn [length] in Hlen; lia|]).
    replace (8 * S k)%nat with (S (S (S (S (S (S (S (S (8 * k))))))))) by lia.
    cbn [packbits take]. f_equal. apply IH. cbn [length] in Hlen. lia.
Qed.

(** X14. Damage to the signature is noticed: when one sample among those
    that carry the magic signature (samples 32 to 63) of an encoded image
    has its least-significant bit changed, and the first 32 samples keep
    theirs, [decode_image] returns "Error: No valid steganography data
    found." under every password. *)
Theorem damaged_signature_is_no_data `{Fernet} (image encoded damaged : ndarray)
        (height width : nat) (message password other : str)
        (w w' wd : world) (i : nat) (x x' : byte) :
  valid w image ->
  adtype image = uint8 ->
  shape image = [height; width; 3%nat] ->
  encode image message password w = (inr encoded, w') ->
  three_channel damaged ->
  valid wd damaged ->
  size damaged = size encoded ->
  take 32 (values wd damaged) = take 32 (values w' encoded) ->
  (32 <= i < 64)%nat ->
  values w' encoded !! i = Some x ->
  values wd damaged !! i = Some x' ->
  band x' x01 <> band x x01 ->
  exists w'', decode_image damaged other wd = (inr no_data_error, w'').
Proof.
  intros Hv Hdt Hshape Henc Htcd Hvd Hsize Hhead [Hi32 Hi64] Hx Hx' Hflip.
  assert (three_channel image) as Htc by (split; [exact Hdt|eauto]).
  apply encode_Some in Henc as (bits & w1 & Hbits & Hcap & -> & ->);
    [|exact Hv|exact Htc].
  rewrite values_encoded in Hhead, Hx by assumption.
  apply payload_bits_of_Some in Hbits
    as (key & data & token & _ & _ & _ & Hlen & -> & _).
  cbn zeta in Hlen. set (salt := entropy_at w (cursor w) 16) in *.
  pose proof (values_length _ _ Hv) as Hxs.
  pose proof (values_length _ _ Hvd) as Hld.
  assert (size damaged = size image) as Hsz by (rewrite Hsize; reflexivity).
  set (content := MAGIC_HEADER ++ salt ++ token) in *.
  assert (length content = (4 + length salt + length token)%nat) as Hc
    by (unfold content; rewrite !length_app; reflexivity).
  assert (length salt = 16%nat) as Hsalt by apply entropy_at_length.
  rewrite unpackbits_length, framed_length in Hcap.
  set (emb := embedded (unpackbits (framed salt token)) (values w image)) in *.
  set (ys := values wd damaged) in *.
  rewrite (decode_image_run damaged damaged other wd wd);
    [|now apply ensure_three_channel|exact Hld].
  fold ys. eexists. f_equal. f_equal.
  assert (header_of ys = Z.of_nat (length content)) as Hhdr.
  { unfold header_of. rewrite Hhead. fold (header_of emb).
    apply header_of_embedded; [exact Hlen|].
    rewrite unpackbits_length, framed_length. lia. }
  rewrite decoded_fits.
  2: { rewrite Hhdr. split; [lia|]. apply Z.div_le_lower_bound; lia. }
  cbn zeta. rewrite Hhdr.
  set (payload := payload_of ys (Z.of_nat (length content))).
  destruct (decide (take 4 payload = MAGIC_HEADER)) as [Hmagic|Hmagic].
  2: { rewrite bool_decide_eq_false_2 by exact Hmagic. now rewrite orb_true_r. }
  exfalso. apply Hflip.
  (* the bits that [decode_image] packs into the payload *)
  set (bs := lsbs (take (Z.to_nat (32 + Z.of_nat (length content) * 8) - 32)
                        (drop 32 ys))) in *.
  assert (length bs = (8 * length content)%nat) as Hbs.
  { unfold bs. rewrite lsbs_length, length_take, length_drop. fold ys in Hld. lia. }
  assert (take 32 bs = unpackbits MAGIC_HEADER) as Hsig.
  { rewrite <- Hmagic. unfold payload, payload_of. fold bs.
    rewrite (packbits_take 4 bs) by lia.
    change (8 * 4)%nat with 32%nat.
    symmetry. apply (unpackbits_packbits 4).
    - apply Forall_take, lsbs_bits.
    - rewrite length_take. lia. }
  assert (bs !! (i - 32)%nat = Some (band x' x01)) as Hbi.
  { unfold bs, lsbs. rewrite list_lookup_fmap.
    rewrite lookup_take_lt by lia. rewrite lookup_drop.
    replace (32 + (i - 32))%nat with i by lia. now rewrite Hx'. }
  assert (take 32 bs !! (i - 32)%nat = Some (band x' x01)) as Hbi'.
  { rewrite lookup_take_lt by lia. exact Hbi. }
  rewrite Hsig in Hbi'.
  (* the same bit of the encoded image *)
  assert (lsbs emb !! i = Some (band x x01)) as Hei.
  { unfold lsbs. rewrite list_lookup_fmap. now rewrite Hx. }
  unfold emb in Hei. rewrite lsbs_embedded in Hei
    by (auto using unpackbits_bits; rewrite unpackbits_length, framed_length; lia).
  rewrite lookup_app_l in Hei by (rewrite unpackbits_length, framed_length; lia).
  unfold framed in Hei. fold content in Hei.
  rewrite unpackbits_app in Hei.
  rewrite lookup_app_r in Hei by (rewrite unpackbits_length, be_digits_length; lia).
  rewrite unpackbits_length, be_digits_length in Hei.
  change (8 * 4)%nat with 32%nat in Hei.
  unfold content in Hei. rewrite unpackbits_app in Hei.
  rewrite lookup_app_l in Hei
    by (rewrite unpackbits_length; change (length MAGIC_HEADER) with 4%nat; lia).
  congruence.
Qed.

Lemma example_encoded_values (data material : bytes) (height width : nat)
      (samples : bytes) :
  length samples = (height * width * 3)%nat ->
  (8 * (68 + length data) <= height * width * 3)%nat ->
  let w := Example.world_with samples in
  let w' :=
    set_heap (<[fresh (dom (heap w)) :=
                  embedded (Example.bits_for data material w)
                           (values w (Example.image height width))]> (heap w))
             (drawn 32 w) in
  values w' (NDArray uint8 [height; width; 3%nat] (fresh (dom (heap w))) 0)
  = embedded (Example.bits_for data material w) samples /\
  values w (Example.image height width) = samples /\
  length (embedded (Example.bits_for data material w) samples)
  = (height * width * 3)%nat.
Proof.
  intros Hlen Hcap w w'.
  pose proof (example_valid height width samples Hlen) as Hv.
  pose proof (values_length _ _ Hv) as Hxs.
  assert (size (Example.image height width) = height * width * 3)%nat as Hsize
    by (unfold size, product; cbn; lia).
  assert (values w (Example.image height width) = samples) as Hvals.
  { unfold values. cbn [buf off Example.image]. unfold w, Example.world_with.
    cbn [heap]. rewrite lookup_total_singleton. change (drop 0 ?l) with l.
    apply take_ge. fold (Example.image height width). lia. }
  split; [|split; [exact Hvals|]].
  - etrans.
    + apply (values_encoded (Example.image height width) _ w (drawn 32 w));
        [exact Hv|].
      rewrite example_bits_length. lia.
    + now rewrite Hvals.
  - rewrite embedded_length; [exact Hlen|]. rewrite example_bits_length. lia.
Qed.

Lemma example_signature_bit (data material : bytes) (w : world) :
  Example.bits_for data material w !! 40%nat = Some x00.
Proof.
  unfold Example.bits_for. cbn zeta.
  generalize (Example.key_for material (entropy_at w (cursor w) 16) ++ data).
  intros token.
  apply (unpackbits_lookup _ 5 0 "T"%byte); [|lia].
  unfold framed. rewrite lookup_app_r by (rewrite be_digits_length; lia).
  rewrite be_digits_length. reflexivity.
Qed.

Lemma damaged_signature_is_no_data_witness :
  let w := Example.world_with (Example.white 768) in
  let encoded := NDArray uint8 [16; 16; 3]%nat (fresh (dom (heap w))) 0 in
  let w' :=
    set_heap (<[fresh (dom (heap w)) :=
                  embedded (Example.bits_for (of_string "hi") (of_string "secret") w)
                           (values w (Example.image 16 16))]> (heap w))
             (drawn 32 w) in
  exists w'',
    @decode_image Example.tagging_fernet (Example.image 16 16) Example.secret
      (Example.world_with (<[40%nat := xff]> (values w' encoded)))
    = (inr no_data_error, w'').
Proof.
  intros w encoded w'.
  destruct (example_encoded_values (of_string "hi") (of_string "secret") 16 16
              (Example.white 768) eq_refl ltac:(cbn; lia)) as (Hvals & Hold & Hlen).
  fold w in Hvals, Hold, Hlen. cbn zeta in Hvals. fold encoded w' in Hvals.
  assert (values (Example.world_with (<[40%nat := xff]> (values w' encoded)))
                 (Example.image 16 16)
          = <[40%nat := xff]> (values w' encoded)) as Hdam.
  { unfold values at 1. cbn [buf off Example.image Example.world_with heap].
    rewrite lookup_total_singleton. change (drop 0 ?l) with l.
    apply take_ge. rewrite length_insert, Hvals, Hlen. unfold size, product. cbn. lia. }
  apply (@damaged_signature_is_no_data Example.tagging_fernet
           (Example.image 16 16) encoded (Example.image 16 16) 16 16
           Example.hi Example.secret Example.secret w w'
           (Example.world_with (<[40%nat := xff]> (values w' encoded)))
           40 xfe xff).
  - apply example_valid. reflexivity.
  - reflexivity.
  - reflexivity.
  - apply (example_encode Example.hi Example.secret (of_string "hi") (of_string "secret"));
      [reflexivity|reflexivity|reflexivity|cbn; lia|cbn; lia].
  - split; [reflexivity|]. exists 16%nat, 16%nat. reflexivity.
  - apply example_valid. rewrite length_insert, Hvals, Hlen. reflexivity.
  - reflexivity.
  - rewrite Hdam, take_insert. now rewrite decide_False by lia.
  - lia.
  - rewrite Hvals.
    apply (embedded_lookup_lt _ _ 40 x00 xff); [apply example_signature_bit|reflexivity].
  - rewrite Hdam. apply list_lookup_insert_eq. rewrite Hvals, Hlen. lia.
  - vm_compute. discriminate.
Defined.

(** * Properties of [app.py] *)

Lemma rgb2bgr_length (n : nat) (data : bytes) :
  length data = (n * 3)%nat -> length (App.rgb2bgr data) = (n * 3)%nat.
Proof.
  revert data. induction n as [|n IH]; intros data Hlen.
  - destruct data; [reflexivity|discriminate].
  - destruct data as [|r [|g [|b rest]]]; try discriminate.
    cbn [App.rgb2bgr length]. rewrite (IH rest); [lia|].
    cbn [length] in Hlen. lia.
Qed.

Lemma rgb2bgr_involutive (n : nat) (data : bytes) :
  length data = (n * 3)%nat -> App.rgb2bgr (App.rgb2bgr data) = data.
Proof.
  revert data. induction n as [|n IH]; intros data Hlen.
  - destruct data; [reflexivity|discriminate].
  - destruct data as [|r [|g [|b rest]]]; try discriminate.
    cbn [App.rgb2bgr]. rewrite (IH rest); [reflexivity|].
    cbn [length] in Hlen. lia.
Qed.

Lemma values_new_array dt (shp : list nat) (data : bytes) (w : world) :
  length data = product shp ->
  values (allocated data w) (NDArray dt shp (fresh (dom (heap w))) 0) = data.
Proof.
  intros Hlen. unfold values. cbn [buf off].
  rewrite (lookup_total_correct _ _ _ (allocated_lookup data w)).
  change (drop 0 ?l) with l. apply take_ge. unfold size. cbn [shape]. lia.
Qed.

Section Views.
Context `{Fernet} `{ImageFiles}.

(** The array the views hand to the helpers. *)
Lemma read_image_run (image pixels : bytes) (height width : nat) (w : world) :
  open_rgb image = inr (height, width, pixels) ->
  length pixels = (height * width * 3)%nat ->
  (0 < height * width)%nat ->
  let w1 := allocated pixels w in
  let w2 := allocated (App.rgb2bgr pixels) w1 in
  let img := NDArray uint8 [height; width; 3%nat] (fresh (dom (heap w1))) 0 in
  App.read_image image w = (inr img, w2) /\
  three_channel img /\ valid w2 img /\
  values w2 img = App.rgb2bgr pixels /\
  size img = (height * width * 3)%nat.
Proof.
  intros Hopen Hlen Hpos w1 w2 img.
  assert (product [height; width; 3%nat] = height * width * 3)%nat as Hprod
    by (unfold product; cbn [fold_right]; lia).
  assert (length (App.rgb2bgr pixels) = product [height; width; 3%nat]) as Hlen'.
  { rewrite Hprod. now apply rgb2bgr_length. }
  split; [|split; [|split; [|split]]].
  - subst w1 w2 img.
    unfold App.read_image, bind, lift. rewrite Hopen. cbn [fst snd].
    rewrite new_array_run. unfold App.cvtColor_RGB2BGR.
    unfold size at 1. cbn [shape]. rewrite Hprod.
    destruct (Nat.eqb_spec (height * width * 3) 0); [lia|].
    rewrite values_new_array by (rewrite Hprod; exact Hlen).
    rewrite new_array_run. reflexivity.
  - split; [reflexivity|]. eauto.
  - now apply new_array_valid.
  - now apply values_new_array.
  - exact Hprod.
Qed.

End Views.

(** X15. Both views answer a request that lacks a field with status 400 and
    an error object, before they read anything: [/encode] needs the file
    "image" and the fields "message" and "password", [/decode] the file
    "image" and the field "password". *)
Theorem views_refuse_missing_fields `{Fernet} `{ImageFiles} (req : App.request)
        (w : world) :
  (App.files req !! "image"%string = None \/
   App.form req !! "message"%string = None \/
   App.form req !! "password"%string = None ->
   App.encode_message req w
   = (inr (App.Response [("error"%string, str_of_string "Missing data")] 400), w)) /\
  (App.files req !! "image"%string = None \/
   App.form req !! "password"%string = None ->
   App.decode_message req w
   = (inr (App.Response
             [("error"%string, str_of_string "Missing image or password")] 400), w)).
Proof.
  split.
  - unfold App.encode_message. intros [-> | [-> | ->]].
    + reflexivity.
    + destruct (App.files req !! _); reflexivity.
    + destruct (App.files req !! _); [|reflexivity].
      destruct (App.form req !! "message"%string); reflexivity.
  - unfold App.decode_message. intros [-> | ->].
    + reflexivity.
    + destruct (App.files req !! _); reflexivity.
Qed.

(** X16. The view of [/decode] answers every complete request whose file
    Pillow opens as a picture of at least one pixel with status 200 and a
    "decoded_message": the string [decode_image] returns for the picture,
    its error strings included; nothing is raised. *)
Theorem decode_view_always_200 `{Fernet} `{ImageFiles} (req : App.request)
        (image pixels : bytes) (password : str) (height width : nat) (w : world) :
  App.files req !! "image"%string = Some image ->
  App.form req !! "password"%string = Some password ->
  open_rgb image = inr (height, width, pixels) ->
  length pixels = (height * width * 3)%nat ->
  (0 < height * width)%nat ->
  exists img w1 result w',
    App.read_image image w = (inr img, w1) /\
    values w1 img = App.rgb2bgr pixels /\
    decode_image img password w1 = (inr result, w') /\
    App.decode_message req w
    = (inr (App.Response [("decoded_message"%string, result)] 200), w').
Proof.
  intros Hfile Hpw Hopen Hlen Hpos.
  destruct (read_image_run image pixels height width w Hopen Hlen Hpos)
    as (Hread & Htc & Hv & Hvals & _).
  cbn zeta in *.
  pose proof (decode_image_run _ _ password _ _ (ensure_three_channel _ _ Htc)
                (values_length _ _ Hv)) as Hdec.
  do 4 eexists. split; [exact Hread|]. split; [exact Hvals|].
  split; [exact Hdec|].
  unfold App.decode_message. rewrite Hfile, Hpw. unfold bind.
  rewrite Hread, Hdec. reflexivity.
Qed.

Lemma decode_view_always_200_witness :
  exists img w1 result w',
    @App.read_image ExampleApp.plain_files ExampleApp.white_file (Example.world_with [])
    = (inr img, w1) /\
    values w1 img = App.rgb2bgr (Example.white 768) /\
    @decode_image Example.tagging_fernet img Example.secret w1 = (inr result, w') /\
    @App.decode_message Example.tagging_fernet ExampleApp.plain_files
      (App.Request {[ "image"%string := ExampleApp.white_file ]}
                   {[ "password"%string := Example.secret ]})
      (Example.world_with [])
    = (inr (App.Response [("decoded_message"%string, result)] 200), w').
Proof.
  apply (@decode_view_always_200 Example.tagging_fernet ExampleApp.plain_files
           _ ExampleApp.white_file (Example.white 768) Example.secret 16 16).
  - reflexivity.
  - reflexivity.
  - reflexivity.
  - reflexivity.
  - lia.
Defined.

(** X17. The view of [/encode] has no answer of its own for a picture that
    is too small: for a complete request whose picture has fewer than 64
    samples the [ValueError] of [encode] leaves the view. *)
Theorem encode_view_small_picture_raises `{Fernet} `{ImageFiles} (req : App.request)
        (image pixels : bytes) (message password : str) (height width : nat)
        (w : world) :
  App.files req !! "image"%string = Some image ->
  App.form req !! "message"%string = Some message ->
  App.form req !! "password"%string = Some password ->
  open_rgb image = inr (height, width, pixels) ->
  length pixels = (height * width * 3)%nat ->
  (0 < height * width)%nat ->
  (height * width * 3 < 64)%nat ->
  exists w', App.encode_message req w = (inl too_small_error, w').
Proof.
  intros Hfile Hm Hpw Hopen Hlen Hpos Hsmall.
  destruct (read_image_run image pixels height width w Hopen Hlen Hpos)
    as (Hread & Htc & _ & _ & Hsize).
  cbn zeta in *.
  unfold App.encode_message. rewrite Hfile, Hm, Hpw. unfold bind.
  rewrite Hread, encode_stages, (ensure_three_channel _ _ Htc), Hsize.
  destruct (Nat.ltb_spec (height * width * 3) 64); [eauto|lia].
Qed.

Lemma encode_view_small_picture_raises_witness :
  exists w',
    @App.encode_message Example.tagging_fernet ExampleApp.plain_files
      (App.Request {[ "image"%string := x02 :: x02 :: Example.white 12 ]}
                   (<[ "message"%string := Example.hi ]>
                      {[ "password"%string := Example.secret ]}))
      (Example.world_with [])
    = (inl too_small_error, w').
Proof.
  apply (@encode_view_small_picture_raises Example.tagging_fernet ExampleApp.plain_files
           _ (x02 :: x02 :: Example.white 12) (Example.white 12)
           Example.hi Example.secret 2 2).
  - reflexivity.
  - reflexivity.
  - reflexivity.
  - reflexivity.
  - reflexivity.
  - lia.
  - lia.
Defined.

Lemma plain_files_lossless (height width : nat) (bgr file : bytes) :
  length bgr = (height * width * 3)%nat ->
  @imencode_png ExampleApp.plain_files [height; width; 3%nat] bgr = inr file ->
  @open_rgb ExampleApp.plain_files file = inr (height, width, App.rgb2bgr bgr).
Proof.
  intros Hlen. cbn [imencode_png open_rgb ExampleApp.plain_files].
  destruct (Nat.ltb_spec height 256) as [Hh|]; [|discriminate].
  destruct (Nat.ltb_spec width 256) as [Hw|]; [|discriminate].
  cbn [andb]. intros E%(inj inr). subst file.
  rewrite !u8_to_u8_small by lia. rewrite !Nat2Z.id.
  rewrite (rgb2bgr_length (height * width) bgr Hlen), Nat.eqb_refl.
  reflexivity.
Qed.

(** X18. Round trip through the views: when Fernet opens what it sealed
    and a written PNG file reads back as the same pixels, the file inside
    the data URL that [/encode] answers with, posted to [/decode] with the
    same password, is answered with status 200 and the message. *)
Theorem views_round_trip `{Fernet} `{ImageFiles} (req : App.request)
        (image pixels png bits : bytes) (message password : str)
        (height width : nat) (w w3 : world) :
  fernet_opens_sealed ->
  (forall h wd bgr file,
      length bgr = (h * wd * 3)%nat ->
      imencode_png [h; wd; 3%nat] bgr = inr file ->
      open_rgb file = inr (h, wd, App.rgb2bgr bgr)) ->
  App.files req !! "image"%string = Some image ->
  App.form req !! "message"%string = Some message ->
  App.form req !! "password"%string = Some password ->
  open_rgb image = inr (height, width, pixels) ->
  length pixels = (height * width * 3)%nat ->
  payload_bits_of message password
    (allocated (App.rgb2bgr pixels) (allocated pixels w)) = (inr bits, w3) ->
  (length bits <= height * width * 3)%nat ->
  imencode_png [height; width; 3%nat] (embedded bits (App.rgb2bgr pixels)) = inr png ->
  (exists w',
      App.encode_message req w
      = (inr (App.Response
                [("encoded_image"%string,
                  str_of_string "data:image/png;base64,"
                  ++ map u8 (Base64Std.b64encode png))] 200), w')) /\
  (forall (req' : App.request) (v : world),
      App.files req' !! "image"%string = Some png ->
      App.form req' !! "password"%string = Some password ->
      exists v',
        App.decode_message req' v
        = (inr (App.Response [("decoded_message"%string, message)] 200), v')).
Proof.
  intros Hopen Hpng Hfile Hm Hpw Himg Hlen Hbits Hcap Hwrite.
  pose proof (payload_bits_of_length _ _ _ _ _ Hbits) as H192.
  assert (0 < height * width)%nat as Hpos by lia.
  destruct (read_image_run image pixels height width w Himg Hlen Hpos)
    as (Hread & Htc & Hv & Hvals & Hsize).
  cbn zeta in *.
  set (w2 := allocated (App.rgb2bgr pixels) (allocated pixels w)) in *.
  set (img := NDArray uint8 [height; width; 3%nat]
                      (fresh (dom (heap (allocated pixels w)))) 0) in *.
  pose proof (encode_run img img message password w2 w2 w3 bits Hv
                (ensure_three_channel _ _ Htc) Hbits ltac:(lia)) as Henc.
  cbn zeta in Henc. rewrite Hvals in Henc.
  assert (length (embedded bits (App.rgb2bgr pixels)) = (height * width * 3)%nat)
    as Hemb.
  { rewrite embedded_length; rewrite (rgb2bgr_length (height * width) pixels Hlen); lia. }
  split.
  - unfold App.encode_message. rewrite Hfile, Hm, Hpw. unfold bind.
    rewrite Hread, Henc. cbn [shape img].
    pose proof (values_encoded img bits w2 w3 Hv ltac:(lia)) as Hve.
    cbn zeta in Hve. rewrite Hvals in Hve. cbn [shape img] in Hve.
    rewrite Hve, Hwrite. unfold ret. eauto.
  - intros req' v Hfile' Hpw'.
    pose proof (Hpng _ _ _ _ Hemb Hwrite) as Hopen'.
    destruct (read_image_run png _ height width v Hopen'
                (rgb2bgr_length _ _ Hemb) Hpos)
      as (Hread' & Htc' & Hv' & Hvals' & Hsize').
    cbn zeta in *.
    unfold App.decode_message. rewrite Hfile', Hpw'. unfold bind.
    rewrite Hread'.
    rewrite (decode_image_run _ _ password _ _ (ensure_three_channel _ _ Htc')
               (values_length _ _ Hv')).
    rewrite Hvals', Hsize', (rgb2bgr_involutive _ _ Hemb).
    apply payload_bits_of_Some in Hbits
      as (key & data & token & Hk & Hdata & Htok & Hl & -> & _).
    cbn zeta in Hk, Hl.
    replace (height * width * 3)%nat with (length (App.rgb2bgr pixels))
      by (now apply rgb2bgr_length).
    rewrite decoded_embedded;
      [|apply entropy_at_length|exact Hl
       |rewrite (rgb2bgr_length (height * width) pixels Hlen); lia].
    rewrite Hk, (Hopen _ _ _ _ _ (key_of_fernet_key _ _ _ Hk) Htok).
    rewrite (utf8_decode_encode _ _ Hdata). unfold ret. eauto.
Qed.

Lemma views_round_trip_witness :
  let w := Example.world_with [] in
  let w2 := allocated (App.rgb2bgr (Example.white 768))
                      (allocated (Example.white 768) w) in
  let bits := Example.bits_for (of_string "hi") (of_string "secret") w2 in
  let png := x10 :: x10
             :: App.rgb2bgr (embedded bits (App.rgb2bgr (Example.white 768))) in
  (exists w',
      @App.encode_message Example.tagging_fernet ExampleApp.plain_files
        (App.Request {[ "image"%string := ExampleApp.white_file ]}
                     (<[ "message"%string := Example.hi ]>
                        {[ "password"%string := Example.secret ]})) w
      = (inr (App.Response
                [("encoded_image"%string,
                  str_of_string "data:image/png;base64,"
                  ++ map u8 (Base64Std.b64encode png))] 200), w')) /\
  (forall (req' : App.request) (v : world),
      App.files req' !! "image"%string = Some png ->
      App.form req' !! "password"%string = Some Example.secret ->
      exists v',
        @App.decode_message Example.tagging_fernet ExampleApp.plain_files req' v
        = (inr (App.Response [("decoded_message"%string, Example.hi)] 200), v')).
Proof.
  intros w w2 bits png.
  apply (@views_round_trip Example.tagging_fernet ExampleApp.plain_files
           _ ExampleApp.white_file (Example.white 768) png bits
           Example.hi Example.secret 16 16 w (drawn 32 w2)).
  - exact tagging_opens_sealed.
  - exact plain_files_lossless.
  - reflexivity.
  - reflexivity.
  - reflexivity.
  - reflexivity.
  - reflexivity.
  - apply example_payload_bits; [reflexivity|reflexivity|cbn; lia].
  - unfold bits. rewrite example_bits_length. cbn. lia.
  - reflexivity.
Defined.
